(** * AFLGo / LTL-Fuzzer LLVM pass: [AFLCoverage::runOnModule]

    A shallow embedding of [llvm_mode/afl-llvm-pass.so.cc] and the properties
    of its two modes: preprocessing (a targets file is given; block names,
    call edges and function names are written out) and distance
    instrumentation (a distance file is given; coverage, distance and
    LTL monitoring code is injected).

    Layout: the C and C++ library functions the pass calls ([Cxx],
    [Double]), the slice of the LLVM IR it inspects ([IR]), the pass itself
    ([Pass]), a concrete run ([Demo]), the vocabulary of the statements
    ([Spec]), and the properties: block names ([Identity]), the command
    line ([CommandLine]), monitoring ([Monitoring]), the distance file
    ([Distances]), selective mode ([Selective]), the environment
    ([Environment]) and event files ([Events]). *)

From Stdlib Require Import Ascii String QArith.
From stdpp Require Import gmap strings list fin_maps pretty.

Close Scope Q_scope.
Local Open Scope string_scope.
Local Open Scope Z_scope.

(* ===================================================================== *)
(** ** The C and C++ library calls of the pass *)
(* ===================================================================== *)

Module Cxx.

(** *** [std::string]

    A position of type [size_t] is a [nat]; [std::string::npos] is [None]. *)

Fixpoint mem_char (c : ascii) (cs : string) : bool :=
  match cs with
  | "" => false
  | String d cs' => Ascii.eqb c d || mem_char c cs'
  end.

(** [s.find(c)]: the first position of [c]. *)
Fixpoint find (c : ascii) (s : string) : option nat :=
  match s with
  | "" => None
  | String d s' => if Ascii.eqb d c then Some 0%nat else S <$> find c s'
  end.

(** [s.find_last_of(cs)]: the last position holding a character of [cs]. *)
Fixpoint find_last_of (cs s : string) : option nat :=
  match s with
  | "" => None
  | String d s' =>
      match find_last_of cs s' with
      | Some i => Some (S i)
      | None => if mem_char d cs then Some 0%nat else None
      end
  end.

(** [s.rfind(":")] with a one-character pattern. *)
Definition rfind (c : ascii) (s : string) : option nat :=
  find_last_of (String c "") s.

Fixpoint drop (n : nat) (s : string) : string :=
  match n, s with
  | O, _ => s
  | S n', String _ s' => drop n' s'
  | S _, "" => ""
  end.

Fixpoint take (n : nat) (s : string) : string :=
  match n, s with
  | O, _ => ""
  | S n', String c s' => String c (take n' s')
  | S _, "" => ""
  end.

(** [s.substr(pos, len)] and [s.substr(pos)].  [std::string] throws
    [out_of_range] when [pos > s.size()]; no call of the pass does that
    (every [pos] is [0] or a found position plus one). *)
Definition substr (pos len : nat) (s : string) : string := take len (drop pos s).
Definition substr_from (pos : nat) (s : string) : string := drop pos s.

(** [s.substr(0, pos)] for a [pos] that may be [npos]: the count is clamped
    to the size, so [npos] yields the whole string. *)
Definition substr_to (pos : option nat) (s : string) : string :=
  match pos with
  | Some p => take p s
  | None => s
  end.

(** [pos + 1] in [size_t] arithmetic: [npos + 1] wraps to [0]. *)
Definition pos_succ (pos : option nat) : nat :=
  match pos with
  | Some p => S p
  | None => O
  end.

(** [s.compare(0, n, t) == 0]: the first [n] characters of [s] are [t]. *)
Definition compare_prefix_eq (n : nat) (s t : string) : bool :=
  String.eqb (take n s) t.

(** [std::to_string] of an [unsigned]. *)
Definition to_string (n : N) : string := pretty n.

(** [F->getName().startswith(p)]. *)
Definition startswith (p s : string) : bool := String.prefix p s.

(** The lines [std::getline] delivers from a stream holding [s]: split at
    newlines; a last line without newline is delivered when it is not
    empty. *)
Fixpoint getlines_aux (cur : string) (s : string) : list string :=
  match s with
  | "" => match cur with "" => [] | _ => [String.rev cur] end
  | String c s' =>
      if Ascii.eqb c "010"%char
      then String.rev cur :: getlines_aux "" s'
      else getlines_aux (String c cur) s'
  end.

Definition getlines (s : string) : list string := getlines_aux "" s.

(** *** Integers of the C library *)

Definition isspace (c : ascii) : bool :=
  let n := nat_of_ascii c in
  Nat.eqb n 32 || (Nat.leb 9 n && Nat.leb n 13).

Fixpoint skip_ws (s : string) : string :=
  match s with
  | String c s' => if isspace c then skip_ws s' else s
  | "" => ""
  end.

Definition digit_val (c : ascii) : option Z :=
  let n := Z.of_nat (nat_of_ascii c) in
  if (48 <=? n) && (n <=? 57) then Some (n - 48) else None.

(** The longest run of decimal digits at the head of [s]: its value, the
    number of digits and the rest. *)
Fixpoint digits (acc : Z) (cnt : nat) (s : string) : Z * nat * string :=
  match s with
  | String c s' =>
      match digit_val c with
      | Some d => digits (10 * acc + d) (S cnt) s'
      | None => (acc, cnt, s)
      end
  | "" => (acc, cnt, s)
  end.

(** An optional sign: [true] for minus. *)
Definition sign (s : string) : bool * string :=
  match s with
  | String "-" s' => (true, s')
  | String "+" s' => (false, s')
  | _ => (false, s)
  end.

(** [strtol(s, NULL, 10)] on an LP64 host: [None] when no digits are found,
    else the value, saturated to the range of [long]. *)
Definition strtol (s : string) : option Z :=
  let '(neg, s1) := sign (skip_ws s) in
  let '(v, cnt, _) := digits 0 0 s1 in
  match cnt with
  | O => None
  | _ =>
      let v := if neg then - v else v in
      Some (Z.max (- 2 ^ 63) (Z.min (2 ^ 63 - 1) v))
  end.

(** Conversion to a 32-bit [int] and to [unsigned]. *)
Definition to_int32 (z : Z) : Z := (z + 2 ^ 31) mod 2 ^ 32 - 2 ^ 31.
Definition to_uint32 (z : Z) : Z := z mod 2 ^ 32.

(** [atoi]: [(int) strtol(s, NULL, 10)], [0] when there is no number. *)
Definition atoi (s : string) : Z :=
  match strtol s with
  | Some v => to_int32 v
  | None => 0
  end.

(** [std::stoi]: throws [invalid_argument] without digits and
    [out_of_range] outside [int]; [None] is the exception. *)
Definition stoi (s : string) : option Z :=
  match strtol s with
  | Some v => if (- 2 ^ 31 <=? v) && (v <=? 2 ^ 31 - 1) then Some v else None
  | None => None
  end.

(** [sscanf(s, "%u", &x) == 1] and the value stored: [None] stands for a
    return value other than 1 (no digits: 0 or EOF).  The value is the one
    of [strtoul] (negation and saturation in 64 bits) cut to 32 bits. *)
Definition sscanf_u (s : string) : option Z :=
  let '(neg, s1) := sign (skip_ws s) in
  let '(v, cnt, _) := digits 0 0 s1 in
  match cnt with
  | O => None
  | _ =>
      let v64 := if 2 ^ 64 <=? v then 2 ^ 64 - 1
                 else if neg then (- v) mod 2 ^ 64 else v in
      Some (to_uint32 v64)
  end.

End Cxx.

(* ===================================================================== *)
(** ** [double] arithmetic and [atof] *)
(* ===================================================================== *)

Module Double.

(** An IEEE 754 binary64 value.  A finite value is the rational it denotes
    (kept in lowest terms); the sign of a zero is not kept, as nothing the
    pass computes depends on it. *)
Inductive double :=
| Fin (q : Q)
| Inf (neg : bool)
| NaN.

(** [n / d] for [0 <= n], [0 < d], to the nearest integer, ties to even. *)
Definition round_half_even (n d : Z) : Z :=
  let q := n / d in
  let r := n mod d in
  if 2 * r <? d then q
  else if d <? 2 * r then q + 1
  else if Z.even q then q else q + 1.

Definition pow2 (e : Z) : Q :=
  if 0 <=? e then inject_Z (2 ^ e) else (1 # Z.to_pos (2 ^ (- e)))%Q.

(** [|x|] as [n / d] scaled by [2 ^ (- e)]. *)
Definition scaled (a d e : Z) : Z * Z :=
  if 0 <=? e then (a, d * 2 ^ e) else (a * 2 ^ (- e), d).

(** Rounding of a rational to binary64, to nearest and ties to even: the
    result is [m * 2 ^ e] with [m <= 2 ^ 53] and [e >= -1074] (below
    [2 ^ -1022] the values are subnormal); from [2 ^ 1024] on it is an
    infinity. *)
Definition of_Q (x : Q) : double :=
  let n := Qnum x in
  let d := Zpos (Qden x) in
  if n =? 0 then Fin 0%Q
  else
    let a := Z.abs n in
    let e1 := Z.log2 a - Z.log2 d - 53 in
    let '(n1, d1) := scaled a d e1 in
    let e2 := if 2 ^ 53 <=? n1 / d1 then e1 + 1 else e1 in
    let e := Z.max e2 (-1074) in
    let '(n2, d2) := scaled a d e in
    let m := round_half_even n2 d2 in
    let v := Qred (inject_Z m * pow2 e) in
    if Qle_bool (pow2 1024) v then Inf (n <? 0)
    else Fin (if n <? 0 then Qopp v else v).

(** The product of two doubles, as [100.0 * x] computes it. *)
Definition mul (x y : double) : double :=
  match x, y with
  | NaN, _ | _, NaN => NaN
  | Fin a, Fin b => of_Q (a * b)%Q
  | Inf s, Fin b | Fin b, Inf s =>
      if Qeq_bool b 0%Q then NaN else Inf (xorb s (Qnum b <? 0))
  | Inf s, Inf t => Inf (xorb s t)
  end.

(** The cast [(int) x]: the value cut toward zero.  Outside the range of
    [int], and for infinities and NaN, ISO C leaves the cast undefined; the
    model answers as the x86-64 conversion instruction does, with
    [INT_MIN]. *)
Definition to_int (x : double) : Z :=
  match x with
  | Fin q =>
      let t := Z.quot (Qnum q) (Zpos (Qden q)) in
      if (- 2 ^ 31 <=? t) && (t <=? 2 ^ 31 - 1) then t else - 2 ^ 31
  | _ => - 2 ^ 31
  end.

Definition hexdigit_val (c : ascii) : option Z :=
  let n := Z.of_nat (nat_of_ascii c) in
  if (48 <=? n) && (n <=? 57) then Some (n - 48)
  else if (97 <=? n) && (n <=? 102) then Some (n - 87)
  else if (65 <=? n) && (n <=? 70) then Some (n - 55)
  else None.

Fixpoint hexdigits (acc : Z) (cnt : nat) (s : string) : Z * nat * string :=
  match s with
  | String c s' =>
      match hexdigit_val c with
      | Some d => hexdigits (16 * acc + d) (S cnt) s'
      | None => (acc, cnt, s)
      end
  | "" => (acc, cnt, s)
  end.

Definition lower (c : ascii) : ascii :=
  let n := nat_of_ascii c in
  if Nat.leb 65 n && Nat.leb n 90 then ascii_of_nat (n + 32) else c.

Fixpoint lower_string (s : string) : string :=
  match s with
  | "" => ""
  | String c s' => String (lower c) (lower_string s')
  end.

(** [10 ^ e] and [2 ^ e] for an exponent of either sign. *)
Definition pow10 (e : Z) : Q :=
  if 0 <=? e then inject_Z (10 ^ e) else (1 # Z.to_pos (10 ^ (- e)))%Q.

(** An exponent part: the letter, an optional sign and at least one digit;
    [0] when there is none. *)
Definition exponent (letter : ascii) (s : string) : Z :=
  match s with
  | String c s' =>
      if Ascii.eqb (lower c) letter then
        let '(neg, s1) := Cxx.sign s' in
        let '(v, cnt, _) := Cxx.digits 0 0 s1 in
        match cnt with
        | O => 0
        | _ => if neg then - v else v
        end
      else 0
  | "" => 0
  end.

(** A digit sequence with an optional radix point: the digits read as one
    integer, how many digits there are, how many follow the point, and the
    rest. *)
Definition mantissa (ds : Z -> nat -> string -> Z * nat * string) (s : string)
  : Z * nat * nat * string :=
  let '(vi, ci, r1) := ds 0 O s in
  match r1 with
  | String "." r2 =>
      let '(v, cf, r3) := ds vi O r2 in
      (v, (ci + cf)%nat, cf, r3)
  | _ => (vi, ci, O, r1)
  end.

(** [strtod]: white space, a sign, then a hexadecimal or a decimal
    floating constant, [inf], [infinity] or [nan] in any case; [None] when
    no conversion is possible. *)
Definition strtod (s : string) : option double :=
  let '(neg, s1) := Cxx.sign (Cxx.skip_ws s) in
  let signed q := if neg then Qopp q else q in
  let decimal :=
    let '(v, cnt, cf, r) := mantissa Cxx.digits s1 in
    match cnt with
    | O =>
        let l := lower_string s1 in
        if String.prefix "inf" l then Some (Inf neg)
        else if String.prefix "nan" l then Some NaN
        else None
    | _ =>
        Some (of_Q (signed (inject_Z v * pow10 (exponent "e" r - Z.of_nat cf))%Q))
    end in
  if String.prefix "0x" (lower_string s1) then
    let '(v, cnt, cf, r) := mantissa hexdigits (Cxx.drop 2 s1) in
    match cnt with
    | O => decimal
    | _ =>
        Some (of_Q (signed (inject_Z v * pow2 (exponent "p" r - 4 * Z.of_nat cf))%Q))
    end
  else decimal.

(** [atof(s)] is [strtod(s, NULL)]: zero when nothing converts. *)
Definition atof (s : string) : double :=
  match strtod s with
  | Some d => d
  | None => Fin 0%Q
  end.

End Double.

(* ===================================================================== *)
(** ** The slice of the LLVM IR the pass looks at *)
(* ===================================================================== *)

Module IR.

Inductive InstKind :=
| KCall (callee : option string)  (** a [CallInst]; the name of
                                      [getCalledFunction()] when there is one *)
| KRet                            (** a [ReturnInst] *)
| KOther.

Record Instruction := {
  inst_id : nat;
  inst_dbg : option (string * N);
  inst_kind : InstKind
}.

Record BasicBlock := {
  bb_id : nat;
  bb_insts : list Instruction
}.

Record Function := {
  f_name : string;
  f_args : list string;
  f_blocks : list BasicBlock
}.

Definition Module := list Function.

(** Modelled from the spec: [instr::InstrFunc::getDebugLoc], declared in
    [ltl-instr-func.h], which is not part of the sources at hand.  It
    delivers "a resolvable source file and line" of an instruction through
    two reference parameters.  [inst_dbg] is what it writes: [Some (f, l)]
    stores [f] and [l]; [None] leaves both variables as they were (an
    implementation that clears them instead is [Some ("", 0)]). *)
Definition getDebugLoc (I : Instruction) (cur : string * N) : string * N :=
  match inst_dbg I with
  | Some fl => fl
  | None => cur
  end.

End IR.

(* ===================================================================== *)
(** ** The pass *)
(* ===================================================================== *)

Module Pass.
Import IR.

(** The command line options ([cl::opt<std::string>]). *)
Record Options := {
  TargetsFile : string;
  DistanceFile : string;
  OutDirectory : string;
  REventsFile : string;
  PEventsFile : string
}.

(** What the pass gets from the process it runs in. *)
Record Host := {
  (** the contents of a file that [std::ifstream] can open *)
  file : string -> option string;
  getenv : string -> option string;
  (** the successive values of [random()] *)
  random : nat -> Z;
  (** [MAP_SIZE] of [config.h], which is not part of the sources at hand *)
  MAP_SIZE : Z;
  (** the value an uninitialised [unsigned line] holds *)
  uninit : N;
  (** [sys::fs::create_directory] sets an error code *)
  create_directory_fails : string -> bool;
  (** [raw_fd_ostream] sets an error code *)
  open_fails : string -> bool;
  (** [BB.setName(n); BB.getName()]: the name the symbol table of the
      function gives the block, empty when the context discards names *)
  setName : string -> nat -> string -> string;
  (** whether the pass was built with [-DAFLGO_TRACING] *)
  AFLGO_TRACING : bool
}.

(** What the pass does to the world, in order.  The functions of
    [instr::InstrFunc] ([ltl-instr-func.h]) are known by their calls
    only: a call is recorded with its arguments. *)
Inductive Effect :=
(* preprocessing *)
| OpenAppend (path : string)
| CreateDirectory (path : string)
| Append (path text : string)
| SetName (fn : string) (bb : nat) (name : string)
| OpenGraph (path : string)
| WriteGraph (path fn : string)
(* under AFLGO_TRACING: the call of llvm_profiling_call before the
   terminator of a block *)
| ProfilingCall (fn : string) (bb : nat) (bb_name : string)
(* the calls into instr::InstrFunc *)
| InitTypes
| ClearLocalVariables
| StoreLocalVariables (i : Instruction)
| StoreGlobalVariables
| PrintGlobalVariables (loc : string)
| PrintLocalVariables (loc : string)
| InstrAutomataHandler (fn : string) (i : Instruction)
                       (input : option string) (output : Z)
| InstrStateHandler (i : Instruction)
| InstrPropHandler (i : Instruction) (evt : string)
| InstrEvaluateTrace (i : Instruction) (flag : Z)
(* the code runOnModule builds itself *)
| NewGlobal (name : string)
| Coverage (fn : string) (bb : nat) (cur_loc : Z)
| Distance (fn : string) (bb : nat) (bb_name : string).

(** *** A state and error monad

    A run ends normally, in [FATAL], or in an exception nobody catches
    ([std::terminate]).  Whatever was done before stays done.  Messages to
    the terminal ([SAYF], [OKF], [WARNF], the banner) are not part of the
    model.  The code under [#ifdef AFLGO_TRACING] is: the host says whether
    the pass was built with it. *)

Inductive Outcome (A : Type) : Type :=
| Done (a : A)
| Fatal (msg : string)
| Thrown (what : string).
Arguments Done {A} a.
Arguments Fatal {A} msg.
Arguments Thrown {A} what.

Record World := {
  rng : nat;              (** how many values of [random()] were drawn *)
  trace : list Effect;
  inst_blocks : Z
}.

Definition M (A : Type) : Type := World -> Outcome A * World.

#[export] Instance M_ret : MRet M := fun A a w => (Done a, w).

#[export] Instance M_bind : MBind M := fun A B k m w =>
  match m w with
  | (Done a, w') => k a w'
  | (Fatal msg, w') => (Fatal msg, w')
  | (Thrown what, w') => (Thrown what, w')
  end.

(** Modelled from the spec: the macro [FATAL] of [debug.h], which is not
    part of the sources at hand; "all error handling is fatal-abort": the
    message is printed and the process ends. *)
Definition FATAL {A} (msg : string) : M A := fun w => (Fatal msg, w).
Definition throw {A} (what : string) : M A := fun w => (Thrown what, w).

Definition emits (es : list Effect) : M unit :=
  fun w => (Done tt, {| rng := rng w; trace := (trace w ++ es)%list;
                        inst_blocks := inst_blocks w |}).
Definition emit (e : Effect) : M unit := emits [e].

Definition incr_inst_blocks : M unit :=
  fun w => (Done tt, {| rng := rng w; trace := trace w;
                        inst_blocks := inst_blocks w + 1 |}).

Fixpoint for_each {A} (l : list A) (body : A -> M unit) : M unit :=
  match l with
  | [] => mret tt
  | x :: l' => body x;; for_each l' body
  end.

Definition world0 : World := {| rng := 0; trace := []; inst_blocks := 0 |}.

(** *** Helpers of the source *)

Definition Blacklist : list string :=
  ["asan."; "llvm."; "sancov."; "__ubsan_handle_";
   "free"; "malloc"; "calloc"; "realloc"].

Definition isBlacklisted (name : string) : bool :=
  existsb (fun p => Cxx.startswith p name) Blacklist.

Definition empty (s : string) : bool := String.eqb s "".

(** The idiom
    [found = s.find_last_of("/\\"); if (found != npos) s = s.substr(found + 1);] *)
Definition strip_dir (s : string) : string :=
  match Cxx.find_last_of "/\" s with
  | Some found => Cxx.substr_from (S found) s
  | None => s
  end.

Definition Xlibs : string := "/usr/".

(** [std::map::emplace] and [std::map::insert]: an existing key keeps its
    value. *)
Definition emplace {V} (m : gmap string V) (k : string) (v : V) : gmap string V :=
  match m !! k with
  | Some _ => m
  | None => <[k := v]> m
  end.

(** *** Loading (lines 173 to 267) *)

Record Loaded := {
  is_aflgo : bool;
  is_aflgo_preprocessing : bool;
  is_RERS_fuzzing : bool;
  is_protocol_fuzzing : bool;
  is_ltl_fuzzing : bool;
  targets : list string;
  bb_to_dis : gmap string Z;
  basic_blocks : list string;
  loc_to_revt : gmap string Z;
  loc_to_pevt : gmap string string
}.

(** One line of the distance file: the text before the first comma, and
    [(int) (100.0 * atof(rest))]. *)
Definition distance_line (line : string) : string * Z :=
  let pos := Cxx.find "," line in
  let bb_name := Cxx.substr_to pos line in
  let bb_dis :=
    Double.to_int
      (Double.mul (Double.Fin 100%Q)
         (Double.atof (Cxx.substr (Cxx.pos_succ pos) (String.length line) line))) in
  (bb_name, bb_dis).

Definition load_distances (lines : list string) : gmap string Z * list string :=
  foldl (fun acc line =>
           let '(bb_name, bb_dis) := distance_line line in
           (emplace acc.1 bb_name bb_dis, (acc.2 ++ [bb_name])%list))
        (∅, []) lines.

(** One line of an event file, split at the last colon. *)
Definition event_line (eline : string) : string * string :=
  let pos := Cxx.rfind ":" eline in
  let loc := Cxx.substr_to pos eline in
  let evt := Cxx.substr (Cxx.pos_succ pos) (String.length eline) eline in
  (loc, evt).

Fixpoint load_revents (lines : list string) (m : gmap string Z)
  : M (gmap string Z) :=
  match lines with
  | [] => mret m
  | eline :: rest =>
      let '(loc, evt) := event_line eline in
      match Cxx.stoi evt with
      | Some evt_int => load_revents rest (emplace m loc evt_int)
      | None => throw "std::stoi"
      end
  end.

Definition load_pevents (lines : list string) : gmap string string :=
  foldl (fun m pline => let '(loc, evt) := event_line pline in emplace m loc evt)
        ∅ lines.

Section WithHost.
Context (h : Host) (o : Options).

Definition lines_of (path : string) : list string :=
  match file h path with
  | Some s => Cxx.getlines s
  | None => []
  end.

(** Lines 225 to 242 and 244 to 260: an event file is read when its path
    is given and the file opens; otherwise the mode stays off. *)
Definition open_revents : M (option (gmap string Z)) :=
  if negb (empty (REventsFile o)) then
    match file h (REventsFile o) with
    | Some eventsFile =>
        m ← load_revents (Cxx.getlines eventsFile) ∅;
        mret (Some m)
    | None => mret None
    end
  else mret None.

Definition open_pevents : option (gmap string string) :=
  if negb (empty (PEventsFile o)) then
    match file h (PEventsFile o) with
    | Some eventsFile => Some (load_pevents (Cxx.getlines eventsFile))
    | None => None
    end
  else None.

Definition load : M Loaded :=
  let none := {| is_aflgo := false; is_aflgo_preprocessing := false;
                 is_RERS_fuzzing := false; is_protocol_fuzzing := false;
                 is_ltl_fuzzing := false; targets := []; bb_to_dis := ∅;
                 basic_blocks := []; loc_to_revt := ∅; loc_to_pevt := ∅ |} in
  if negb (empty (TargetsFile o)) && negb (empty (DistanceFile o)) then
    FATAL "Cannot specify both '-targets' and '-distance'!"
  else if negb (empty (TargetsFile o)) then
    if empty (OutDirectory o) then
      FATAL "Provide output directory '-outdir <directory>'"
    else
      mret {| is_aflgo := false; is_aflgo_preprocessing := true;
              is_RERS_fuzzing := false; is_protocol_fuzzing := false;
              is_ltl_fuzzing := false;
              targets := lines_of (TargetsFile o); bb_to_dis := ∅;
              basic_blocks := []; loc_to_revt := ∅; loc_to_pevt := ∅ |}
  else if negb (empty (DistanceFile o)) then
    match file h (DistanceFile o) with
    | Some cf =>
        let dis := load_distances (Cxx.getlines cf) in
        revt ← open_revents;
        let pevt := open_pevents in
        mret {| is_aflgo := true; is_aflgo_preprocessing := false;
                is_RERS_fuzzing := bool_decide (is_Some revt);
                is_protocol_fuzzing := bool_decide (is_Some pevt);
                is_ltl_fuzzing :=
                  bool_decide (is_Some revt) || bool_decide (is_Some pevt);
                targets := []; bb_to_dis := dis.1; basic_blocks := dis.2;
                loc_to_revt := default ∅ revt;
                loc_to_pevt := default ∅ pevt |}
    | None => FATAL ("Unable to find " ++ DistanceFile o ++ ".")
    end
  else mret none.

(** *** The environment (lines 284 to 313) *)

Definition ratio (var msg : string) : M Z :=
  match getenv h var with
  | Some str =>
      match Cxx.sscanf_u str with
      | Some v => if (v =? 0) || (100 <? v) then FATAL msg else mret v
      | None => FATAL msg
      end
  | None => mret 100
  end.

Definition selective : M Z :=
  match getenv h "AFLGO_SELECTIVE" with
  | Some str =>
      match Cxx.sscanf_u str with
      | Some v => mret v
      | None => FATAL "Bad value of AFLGO_SELECTIVE (must be 0 or 1)"
      end
  | None => mret 0
  end.

End WithHost.

(** *** Preprocessing (lines 319 to 440) *)

(** The variables of the block loop that the instruction loop updates;
    [targets] and [is_target] outlive the block. *)
Record P1 := {
  p_bb_name : string;
  p_filename : string;
  p_line : N;
  p_is_target : bool;
  p_targets : list string
}.

(** The loop over [targets]: every entry is cut to its last path component
    in place (it is bound by reference) and compared with the instruction's
    file and line. *)
Fixpoint match_targets (ts : list string) (filename : string) (line : N)
    (is_target : bool) : list string * bool :=
  match ts with
  | [] => ([], is_target)
  | target :: rest =>
      let target := strip_dir target in
      let pos := Cxx.find_last_of ":" target in
      let target_file := Cxx.substr_to pos target in
      let target_line :=
        Cxx.to_uint32 (Cxx.atoi (Cxx.substr_from (Cxx.pos_succ pos) target)) in
      let hit := String.eqb target_file filename && (target_line =? Z.of_N line) in
      let '(rest', is_target') := match_targets rest filename line (is_target || hit) in
      (target :: rest', is_target')
  end.

Section Preprocessing.
Context (h : Host) (o : Options).

Definition bbnames : string := OutDirectory o ++ "/BBnames.txt".
Definition bbcalls : string := OutDirectory o ++ "/BBcalls.txt".
Definition fnames : string := OutDirectory o ++ "/Fnames.txt".
Definition ftargets : string := OutDirectory o ++ "/Ftargets.txt".
Definition dotfiles : string := OutDirectory o ++ "/dot-files".

(** The body of [for (auto &I : BB)], lines 349 to 394.  [Append p t] is
    the text [t] and a newline sent to the stream of [p]. *)
Definition phase1_inst (I : Instruction) (st : P1) : P1 * list Effect :=
  let '(filename, line) := getDebugLoc I (p_filename st, p_line st) in
  let filename := strip_dir filename in
  if empty filename || (line =? 0)%N
     || Cxx.compare_prefix_eq (String.length Xlibs) filename Xlibs
  then
    ({| p_bb_name := p_bb_name st; p_filename := filename; p_line := line;
        p_is_target := p_is_target st; p_targets := p_targets st |}, [])
  else
    let '(filename, bb_name) :=
      if empty (p_bb_name st) then
        let filename := strip_dir filename in
        (filename, filename ++ ":" ++ Cxx.to_string line)
      else (filename, p_bb_name st) in
    let '(targets, is_target) :=
      if negb (p_is_target st)
      then match_targets (p_targets st) filename line false
      else (p_targets st, true) in
    let '(filename, out) :=
      match inst_kind I with
      | KCall callee =>
          (strip_dir filename,
           match callee with
           | Some name =>
               if negb (isBlacklisted name)
               then [Append bbcalls (bb_name ++ "," ++ name)]
               else []
           | None => []
           end)
      | _ => (filename, [])
      end in
    ({| p_bb_name := bb_name; p_filename := filename; p_line := line;
        p_is_target := is_target; p_targets := targets |}, out).

Fixpoint phase1_insts (insts : list Instruction) (st : P1) : P1 * list Effect :=
  match insts with
  | [] => (st, [])
  | i :: rest =>
      let '(st1, out1) := phase1_inst i st in
      let '(st2, out2) := phase1_insts rest st1 in
      (st2, (out1 ++ out2)%list)
  end.

(** The block name the instruction loop of preprocessing ends with. *)
Definition phase1_bb_name (BB : BasicBlock) : string :=
  p_bb_name (phase1_insts (bb_insts BB)
               {| p_bb_name := ""; p_filename := ""; p_line := uninit h;
                  p_is_target := false; p_targets := [] |}).1.

(** The variables of the function loop: [is_target], [has_BBs], and the
    target list. *)
Definition phase1_block (F : Function) (BB : BasicBlock)
    (st : bool * bool * list string) : (bool * bool * list string) * list Effect :=
  let '(is_target, has_BBs, ts) := st in
  let '(st', out) :=
    phase1_insts (bb_insts BB)
      {| p_bb_name := ""; p_filename := ""; p_line := uninit h;
         p_is_target := is_target; p_targets := ts |} in
  let bb_name := p_bb_name st' in
  if negb (empty bb_name) then
    let given := setName h (f_name F) (bb_id BB) (bb_name ++ ":") in
    let name := if empty given then bb_name ++ ":" else given in
    ((p_is_target st', true, p_targets st'),
     (out ++ [SetName (f_name F) (bb_id BB) name; Append bbnames name]
          ++ (if AFLGO_TRACING h
              then [ProfilingCall (f_name F) (bb_id BB) bb_name] else []))%list)
  else ((p_is_target st', has_BBs, p_targets st'), out).

Fixpoint phase1_blocks (F : Function) (bbs : list BasicBlock)
    (st : bool * bool * list string) : (bool * bool * list string) * list Effect :=
  match bbs with
  | [] => (st, [])
  | BB :: rest =>
      let '(st1, out1) := phase1_block F BB st in
      let '(st2, out2) := phase1_blocks F rest st1 in
      (st2, (out1 ++ out2)%list)
  end.

Definition phase1_function (F : Function) (ts : list string)
  : list string * list Effect :=
  if isBlacklisted (f_name F) then (ts, [])
  else
    let '((is_target, has_BBs, ts'), out) :=
      phase1_blocks F (f_blocks F) (false, false, ts) in
    if has_BBs then
      let cfgFileName := dotfiles ++ "/cfg." ++ f_name F ++ ".dot" in
      (ts',
       (out ++ [OpenGraph cfgFileName]
            ++ (if negb (open_fails h cfgFileName)
                then [WriteGraph cfgFileName (f_name F)] else [])
            ++ (if is_target then [Append ftargets (f_name F)] else [])
            ++ [Append fnames (f_name F)])%list)
    else (ts', out).

Fixpoint phase1_functions (fs : list Function) (ts : list string) : list Effect :=
  match fs with
  | [] => []
  | F :: rest =>
      let '(ts', out) := phase1_function F ts in
      (out ++ phase1_functions rest ts')%list
  end.

Definition preprocessing (ts : list string) (Mod : Module) : M unit :=
  emits [OpenAppend bbnames; OpenAppend bbcalls; OpenAppend fnames;
         OpenAppend ftargets; CreateDirectory dotfiles];;
  if create_directory_fails h dotfiles then
    FATAL ("Could not create directory " ++ dotfiles ++ ".")
  else emits (phase1_functions Mod ts).

End Preprocessing.

(** *** Distance instrumentation (lines 442 to 697) *)

Section Instrumentation.
Context (h : Host) (ld : Loaded) (inst_ratio is_selective dinst_ratio : Z).

(** Modelled from the spec: the macro [AFL_R] of [types.h], which is not
    part of the sources at hand; "a uniform sampler over 0-99" for
    [AFL_R(100)], that is [random() % x]. *)
Definition AFL_R (x : Z) : M Z :=
  fun w => (Done (Z.rem (random h (rng w)) x),
            {| rng := S (rng w); trace := trace w;
               inst_blocks := inst_blocks w |}).

(** Lines 485 to 498: the name of the block, from its first instruction
    with a file and a line.  [filename] and [line] are fresh variables for
    every instruction. *)
Fixpoint phase2_bb_name (insts : list Instruction) : string :=
  match insts with
  | [] => ""
  | i :: rest =>
      let '(filename, line) := getDebugLoc i ("", uninit h) in
      if empty filename || (line =? 0)%N then phase2_bb_name rest
      else
        let filename := strip_dir filename in
        filename ++ ":" ++ Cxx.to_string line
  end.

(** Lines 512 to 515: the scan of [bb_to_dis] that keeps the value of every
    entry whose key is [bb_name].  ([map_to_list] need not list the
    entries in the order of [std::map]; with one entry per key the order
    does not show.) *)
Definition scan_distance (m : gmap string Z) (bb_name : string) (distance : Z) : Z :=
  foldl (fun distance it => if String.eqb it.1 bb_name then it.2 else distance)
        distance (map_to_list m).

(** Lines 500 to 519.  [None] is the [continue] of selective mode, else the
    value of [distance]. *)
Definition find_distance (bb_name : string) : M (option Z) :=
  if negb (empty bb_name) then
    if negb (bool_decide (bb_name ∈ basic_blocks ld)) then
      if negb (is_selective =? 0) then mret None else mret (Some (-1))
    else
      r ← AFL_R 100;
      if r <? dinst_ratio
      then mret (Some (scan_distance (bb_to_dis ld) bb_name (-1)))
      else mret (Some (-1))
  else mret (Some (-1)).

(** Lines 524 to 618: one instruction of the monitoring loop, with the flag
    [is_traversed] of the block.  The calls into [instr::InstrFunc] put
    their code before [I], so the loop does not meet it again. *)
Definition monitor_inst (F : Function) (I : Instruction) (is_traversed : bool)
  : bool * list Effect :=
  let '(filename, line) := getDebugLoc I ("", uninit h) in
  if empty filename || (line =? 0)%N then (is_traversed, [])
  else
    let filename := strip_dir filename in
    let loc_name := filename ++ ":" ++ Cxx.to_string line in
    let '(is_traversed', out) :=
      if is_RERS_fuzzing ld then
        match loc_to_revt ld !! loc_name with
        | Some _ =>
            if negb is_traversed then
              let input := head (f_args F) in
              let output_val :=
                match loc_to_revt ld !! loc_name with
                | Some v => v
                | None => 0
                end in
              (true, [StoreLocalVariables I;
                      InstrAutomataHandler (f_name F) I input output_val;
                      StoreGlobalVariables;
                      InstrStateHandler I])
            else (is_traversed, [StoreLocalVariables I])
        | None => (is_traversed, [StoreLocalVariables I])
        end
      else
        match loc_to_pevt ld !! loc_name with
        | Some evt =>
            if negb is_traversed then
              (true, [StoreLocalVariables I;
                      InstrPropHandler I evt;
                      StoreGlobalVariables;
                      PrintGlobalVariables loc_name;
                      PrintLocalVariables loc_name;
                      InstrStateHandler I;
                      InstrEvaluateTrace I 1])
            else (is_traversed, [StoreLocalVariables I])
        | None => (is_traversed, [StoreLocalVariables I])
        end in
    let at_exit :=
      if String.eqb (f_name F) "main" && is_RERS_fuzzing ld then
        match inst_kind I with
        | KRet => [InstrEvaluateTrace I 0]
        | _ => []
        end
      else [] in
    (is_traversed', (out ++ at_exit)%list).

Fixpoint monitor_insts (F : Function) (insts : list Instruction)
    (is_traversed : bool) : list Effect :=
  match insts with
  | [] => []
  | i :: rest =>
      let '(is_traversed', out) := monitor_inst F i is_traversed in
      (out ++ monitor_insts F rest is_traversed')%list
  end.

Definition monitor_block (F : Function) (BB : BasicBlock) : list Effect :=
  monitor_insts F (bb_insts BB) false.

(** The body of [for (auto &BB : F)], lines 480 to 694. *)
Definition phase2_block (F : Function) (BB : BasicBlock) : M unit :=
  let bb_name := if is_aflgo ld then phase2_bb_name (bb_insts BB) else "" in
  d ← (if is_aflgo ld then find_distance bb_name else mret (Some (-1)));
  match d with
  | None => mret tt
  | Some distance =>
      (if is_ltl_fuzzing ld then emits (monitor_block F BB) else mret tt);;
      r ← AFL_R 100;
      if inst_ratio <=? r then mret tt
      else
        cur_loc ← AFL_R (MAP_SIZE h);
        emit (Coverage (f_name F) (bb_id BB) cur_loc);;
        (if 0 <=? distance
         then emit (Distance (f_name F) (bb_id BB) bb_name)
         else mret tt);;
        incr_inst_blocks
  end.

Definition phase2_function (F : Function) : M unit :=
  emit ClearLocalVariables;;
  for_each (f_blocks F) (phase2_block F).

Definition instrumentation (Mod : Module) : M unit :=
  emits [InitTypes; NewGlobal "__afl_area_ptr"; NewGlobal "__afl_prev_loc"];;
  for_each Mod phase2_function.

End Instrumentation.

(** *** [AFLCoverage::runOnModule] *)

Definition runOnModule (h : Host) (o : Options) (Mod : Module) : M unit :=
  ld ← load h o;
  inst_ratio ← ratio h "AFL_INST_RATIO"
                 "Bad value of AFL_INST_RATIO (must be between 1 and 100)";
  is_selective ← selective h;
  dinst_ratio ← ratio h "AFLGO_INST_RATIO"
                  "Bad value of AFLGO_INST_RATIO (must be between 1 and 100)";
  if is_aflgo_preprocessing ld
  then preprocessing h o (targets ld) Mod
  else instrumentation h ld inst_ratio is_selective dinst_ratio Mod.

End Pass.

(* ===================================================================== *)
(** ** A concrete run, for the closed statements below *)
(* ===================================================================== *)

Module Demo.
Import IR Pass.

Definition nl : string := String "010"%char "".

Definition distance_txt : string :=
  "foo.c:10,0.25" ++ nl ++ "foo.c:10,0.75" ++ nl ++ "bar.c:3,1.5" ++ nl.
Definition revents_txt : string := "foo.c:10:3" ++ nl.
Definition pevents_txt : string := "bar.c:3:open" ++ nl ++ "zed.c:7:close" ++ nl.
Definition targets_txt : string := "/a/b/foo.c:10" ++ nl.

Definition files (path : string) : option string :=
  if String.eqb path "distance.cfg.txt" then Some distance_txt
  else if String.eqb path "revents.txt" then Some revents_txt
  else if String.eqb path "pevents.txt" then Some pevents_txt
  else if String.eqb path "BBtargets.txt" then Some targets_txt
  else None.

Definition host (env : string -> option string) : Host :=
  {| file := files;
     getenv := env;
     random := fun k => 7 * Z.of_nat k;
     MAP_SIZE := 65536;
     uninit := 77%N;
     create_directory_fails := fun _ => false;
     open_fails := fun _ => false;
     setName := fun _ _ name => name;
     AFLGO_TRACING := false |}.

Definition no_env : string -> option string := fun _ => None.

Definition env_selective (value : string) : string -> option string :=
  fun var => if String.eqb var "AFLGO_SELECTIVE" then Some value else None.

Definition inst (k : nat) (f : string) (l : N) (kind : InstKind) : Instruction :=
  {| inst_id := k; inst_dbg := Some (f, l); inst_kind := kind |}.

(** [foo.c:10] is in the distance file and the automaton events, [bar.c:3]
    in the distance file and the protocol events, [zed.c:7] in the protocol
    events only. *)
Definition bb_foo : BasicBlock :=
  {| bb_id := 0;
     bb_insts := [inst 0 "/src/foo.c" 10 KOther;
                  inst 1 "/src/foo.c" 10 (KCall (Some "g"));
                  inst 2 "/src/foo.c" 11 KOther] |}.
Definition bb_bar : BasicBlock :=
  {| bb_id := 1;
     bb_insts := [inst 3 "bar.c" 3 KOther; inst 4 "bar.c" 3 KOther] |}.
Definition bb_zed : BasicBlock :=
  {| bb_id := 2; bb_insts := [inst 5 "zed.c" 7 KRet] |}.
Definition bb_usr : BasicBlock :=
  {| bb_id := 3;
     bb_insts := [inst 6 "/usr/include/stdio.h" 27 KOther;
                  inst 7 "/src/foo.c" 12 KOther] |}.
Definition bb_slash : BasicBlock :=
  {| bb_id := 4; bb_insts := [inst 8 "src/" 3 KOther] |}.

Definition work : Function :=
  {| f_name := "work"; f_args := ["input"];
     f_blocks := [bb_foo; bb_bar; bb_zed] |}.

Definition module : Module := [work].

Definition opts (targets distance outdir revents pevents : string) : Options :=
  {| TargetsFile := targets; DistanceFile := distance; OutDirectory := outdir;
     REventsFile := revents; PEventsFile := pevents |}.

(** A module with the one function [work], holding one block. *)
Definition only (BB : BasicBlock) : Module :=
  [{| f_name := "work"; f_args := ["input"]; f_blocks := [BB] |}].

Definition distance_only : Options := opts "" "distance.cfg.txt" "" "" "".
Definition with_pevents : Options := opts "" "distance.cfg.txt" "" "" "pevents.txt".

(** What [load] delivers from the files above. *)
Definition loaded (o : Options) : option Loaded :=
  match load (host no_env) o world0 with
  | (Done ld, _) => Some ld
  | _ => None
  end.

Definition both_events : Options :=
  opts "" "distance.cfg.txt" "" "revents.txt" "pevents.txt".

Definition nothing : Loaded :=
  {| is_aflgo := false; is_aflgo_preprocessing := false;
     is_RERS_fuzzing := false; is_protocol_fuzzing := false;
     is_ltl_fuzzing := false; targets := []; bb_to_dis := ∅;
     basic_blocks := []; loc_to_revt := ∅; loc_to_pevt := ∅ |}.

Definition ld_of (o : Options) : Loaded := default nothing (loaded o).

End Demo.

(* ===================================================================== *)
(** ** The words of the specification, and of the proofs *)
(* ===================================================================== *)

Module Spec.
Import IR Pass.

(** "The first instruction with non-empty file and nonzero line
    metadata" of a block. *)
Fixpoint first_located (insts : list Instruction) : option (string * N) :=
  match insts with
  | [] => None
  | i :: rest =>
      match inst_dbg i with
      | Some (f, l) =>
          if negb (empty f) && negb (l =? 0)%N then Some (f, l)
          else first_located rest
      | None => first_located rest
      end
  end.

(** "[basename(f) + ":" + l]". *)
Definition BlockIdentity (f : string) (l : N) : string :=
  strip_dir f ++ ":" ++ Cxx.to_string l.

(** The calls that start a group of monitoring hooks: the automaton handler
    or the proposition handler. *)
Definition is_hook (e : Effect) : bool :=
  match e with
  | InstrAutomataHandler _ _ _ _ | InstrPropHandler _ _ => true
  | _ => false
  end.

Definition is_state_hook (e : Effect) : bool :=
  match e with
  | InstrStateHandler _ => true
  | _ => false
  end.

(** The trace evaluation of protocol mode ([instrEvaluateTrace] with flag
    1); the one with flag 0 goes before the returns of [main]. *)
Definition is_trace_hook (e : Effect) : bool :=
  match e with
  | InstrEvaluateTrace _ flag => flag =? 1
  | _ => false
  end.

Definition count (p : Effect -> bool) (es : list Effect) : nat :=
  length (List.filter p es).





(** The code that belongs to one monitoring mode alone, and all the code
    of the monitoring loop. *)
Definition automaton_effect (e : Effect) : bool :=
  match e with
  | InstrAutomataHandler _ _ _ _ => true
  | InstrEvaluateTrace _ flag => flag =? 0
  | _ => false
  end.

Definition protocol_effect (e : Effect) : bool :=
  match e with
  | InstrPropHandler _ _ | PrintGlobalVariables _ | PrintLocalVariables _ => true
  | InstrEvaluateTrace _ flag => flag =? 1
  | _ => false
  end.

Definition monitoring_effect (e : Effect) : bool :=
  match e with
  | StoreLocalVariables _ | StoreGlobalVariables
  | PrintGlobalVariables _ | PrintLocalVariables _
  | InstrAutomataHandler _ _ _ _ | InstrStateHandler _
  | InstrPropHandler _ _ | InstrEvaluateTrace _ _ => true
  | _ => false
  end.

(** The two event files. *)
Inductive EventKind := Automaton | Protocol.

Definition events_file (k : EventKind) (o : Options) : string :=
  match k with
  | Automaton => REventsFile o
  | Protocol => PEventsFile o
  end.

Definition mode_enabled (k : EventKind) (ld : Loaded) : bool :=
  match k with
  | Automaton => is_RERS_fuzzing ld
  | Protocol => is_protocol_fuzzing ld
  end.

Definition mode_effect (k : EventKind) : Effect -> bool :=
  match k with
  | Automaton => automaton_effect
  | Protocol => protocol_effect
  end.

(** The options with one event file not given. *)
Definition without_events (k : EventKind) (o : Options) : Options :=
  {| TargetsFile := TargetsFile o;
     DistanceFile := DistanceFile o;
     OutDirectory := OutDirectory o;
     REventsFile := match k with Automaton => "" | Protocol => REventsFile o end;
     PEventsFile := match k with Automaton => PEventsFile o | Protocol => "" end |}.

(** The values of a block name in the distance file: on its first line
    and on its last line. *)
Fixpoint first_value (lines : list string) (bb_name : string) : option Z :=
  match lines with
  | [] => None
  | line :: rest =>
      if String.eqb (distance_line line).1 bb_name
      then Some (distance_line line).2
      else first_value rest bb_name
  end.

Definition last_value (lines : list string) (bb_name : string) : option Z :=
  first_value (rev lines) bb_name.

(** "[round(100 * floatDistance)]": the nearest integer, halves away from
    zero as [round] of the C library has it. *)
Definition round (q : Q) : Z :=
  let n := Qnum q in
  let d := Zpos (Qden q) in
  if 0 <=? n then (2 * n + d) / (2 * d) else - ((2 * (- n) + d) / (2 * d)).

(** The body of the scan of [bb_to_dis] and of the loop over the lines
    of the distance file. *)
Definition keep (bb_name : string) (distance : Z) (it : string * Z) : Z :=
  if String.eqb it.1 bb_name then it.2 else distance.

Definition step (acc : gmap string Z * list string) (line : string)
  : gmap string Z * list string :=
  let '(bb_name, bb_dis) := distance_line line in
  (emplace acc.1 bb_name bb_dis, (acc.2 ++ [bb_name])%list).

(** How many hook groups a block may still get. *)
Definition budget (is_traversed : bool) : nat := if is_traversed then 0 else 1.

(** Before the block has a name the variables [filename] and [line] of
    preprocessing hold nothing that would pass the tests. *)
Definition unnamed (st : P1) : Prop :=
  p_bb_name st = "" /\ (p_filename st = "" \/ p_line st = 0%N).

(** A computation that leaves the world alone, and a computation whose
    effects all satisfy [P]. *)
Definition quiet {A} (m : M A) : Prop := forall w, (m w).2 = w.

Definition emits_only (P : Effect -> Prop) {A} (m : M A) : Prop :=
  forall w, exists es, trace (m w).2 = (trace w ++ es)%list /\ Forall P es.

Definition plain (e : Effect) : Prop := monitoring_effect e = false.

(** An event file that is not read: no distance file is given, or the
    event file does not open. *)
Definition unusable (h : Host) (o : Options) (k : EventKind) : Prop :=
  DistanceFile o = "" \/ file h (events_file k o) = None.

(** A run that does not come to its end. *)
Definition failed {A} (r : Outcome A) : bool :=
  match r with
  | Done _ => false
  | _ => true
  end.

End Spec.

(* ===================================================================== *)
(** ** More vocabulary: files, counters, targets *)
(* ===================================================================== *)

Module Vocabulary.
Import IR Pass Spec.

(** What touches the file system. *)
Definition file_effect (e : Effect) : bool :=
  match e with
  | OpenAppend _ | CreateDirectory _ | Append _ _
  | OpenGraph _ | WriteGraph _ _ => true
  | _ => false
  end.

(** What preprocessing may do: touch files and name blocks. *)
Definition preprocessing_effect (e : Effect) : bool :=
  match e with
  | SetName _ _ _ => true
  | _ => file_effect e
  end.

(** The call of [llvm_profiling_call] of a build with [AFLGO_TRACING]. *)
Definition is_profiling (e : Effect) : bool :=
  match e with
  | ProfilingCall _ _ _ => true
  | _ => false
  end.

Definition is_naming (e : Effect) : bool :=
  match e with
  | SetName _ _ _ => true
  | _ => false
  end.

(** What a run with a targets file may do: touch files, name blocks and
    put in the profiling call. *)
Definition extraction_effect (e : Effect) : bool :=
  preprocessing_effect e || is_profiling e.

(** The effects of a run with a targets file: of the kinds above, with
    one profiling call for each named block in a build with
    [AFLGO_TRACING] and none in a build without. *)
Definition extraction (h : Host) (es : list Effect) : Prop :=
  Forall (fun e => extraction_effect e = true) es /\
  count is_profiling es
    = (if AFLGO_TRACING h then count is_naming es else 0%nat).

Definition is_coverage (e : Effect) : bool :=
  match e with
  | Coverage _ _ _ => true
  | _ => false
  end.

Definition is_distance (e : Effect) : bool :=
  match e with
  | Distance _ _ _ => true
  | _ => false
  end.

(** The test of the loop over [targets], for one entry. *)
Definition target_hit (filename : string) (line : N) (target : string) : bool :=
  let target := strip_dir target in
  let pos := Cxx.find_last_of ":" target in
  String.eqb (Cxx.substr_to pos target) filename
  && (Cxx.to_uint32 (Cxx.atoi (Cxx.substr_from (Cxx.pos_succ pos) target))
      =? Z.of_N line).

(** The function is a target already, or the target list holds an entry
    for the file and the line. *)
Definition marked (is_target : bool) (ts : list string)
    (filename : string) (line : N) : Prop :=
  is_target = true \/ existsb (target_hit filename line) ts = true.

(** A line of the ledger of call edges: the name of a block, a comma and a
    callee that is not blacklisted. *)
Definition call_edge (o : Options) (bb_name : string) (e : Effect) : Prop :=
  exists name, e = Append (bbcalls o) (bb_name ++ "," ++ name)
               /\ isBlacklisted name = false.


(** The first event of a location in an event file. *)
Fixpoint first_event (lines : list string) (loc : string) : option string :=
  match lines with
  | [] => None
  | line :: rest =>
      if String.eqb (event_line line).1 loc
      then Some (event_line line).2
      else first_event rest loc
  end.

(** A text file with the given lines, each ended by a newline. *)
Fixpoint unlines (lines : list string) : string :=
  match lines with
  | [] => ""
  | line :: rest => line ++ String "010"%char (unlines rest)
  end.

(** The blocks of a module. *)
Definition blocks_of (Mod : Module) : list BasicBlock :=
  concat (f_blocks <$> Mod).

(** A computation that draws no random number, counts no block and emits
    effects of one kind only. *)
Definition only_emits (P : Effect -> Prop) {A} (m : M A) : Prop :=
  forall w,
    rng (m w).2 = rng w /\ inst_blocks (m w).2 = inst_blocks w /\
    exists es, trace (m w).2 = (trace w ++ es)%list /\ Forall P es.

(** A computation that draws no random number, counts no block and emits
    a list of effects with the property [Q]. *)
Definition emits_such (Q : list Effect -> Prop) {A} (m : M A) : Prop :=
  forall w,
    rng (m w).2 = rng w /\ inst_blocks (m w).2 = inst_blocks w /\
    exists es, trace (m w).2 = (trace w ++ es)%list /\ Q es.

(** A computation that counts one block for every coverage injection, and
    injects distance code no more often than coverage code. *)
Definition counted {A} (m : M A) : Prop :=
  forall w, exists es,
    trace (m w).2 = (trace w ++ es)%list /\
    inst_blocks (m w).2 = inst_blocks w + Z.of_nat (count is_coverage es) /\
    (count is_distance es <= count is_coverage es)%nat.

(** A computation that comes to its end and counts [n] blocks. *)
Definition adds (n : Z) (m : M unit) : Prop :=
  forall w, (m w).1 = Done tt /\ inst_blocks (m w).2 = inst_blocks w + n.




(** A state of the instruction loop of preprocessing, apart from the
    targets. *)
Definition same_place (st st' : P1) : Prop :=
  p_bb_name st = p_bb_name st' /\ p_filename st = p_filename st'
  /\ p_line st = p_line st'.

End Vocabulary.

(* ===================================================================== *)
(** ** More concrete cases *)
(* ===================================================================== *)

Module Cases.
Import IR Pass.

(** A block without a usable location: no debug location at all, then a
    location with line 0. *)
Definition bb_bare : BasicBlock :=
  {| bb_id := 9;
     bb_insts := [{| inst_id := 0; inst_dbg := None; inst_kind := KCall (Some "g") |};
                  {| inst_id := 1; inst_dbg := Some ("foo.c", 0%N); inst_kind := KRet |}] |}.

(** A host on which no directory can be made. *)
Definition host_no_mkdir : Host :=
  {| file := Demo.files; getenv := Demo.no_env; random := fun _ => 0;
     MAP_SIZE := 65536; uninit := 0%N;
     create_directory_fails := fun _ => true;
     open_fails := fun _ => false;
     setName := fun _ _ name => name;
     AFLGO_TRACING := false |}.

(** A host with an automaton event file whose second event is no number. *)
Definition bad_revents_txt : string :=
  "foo.c:10:3" ++ Demo.nl ++ "bar.c:3:open" ++ Demo.nl.

Definition host_bad_events : Host :=
  {| file := fun path => if String.eqb path "bad.txt" then Some bad_revents_txt
                         else Demo.files path;
     getenv := Demo.no_env; random := fun k => 7 * Z.of_nat k;
     MAP_SIZE := 65536; uninit := 0%N;
     create_directory_fails := fun _ => false;
     open_fails := fun _ => false;
     setName := fun _ _ name => name;
     AFLGO_TRACING := false |}.

(** A host whose distance file knows the block [":3"]. *)
Definition slash_txt : string := ":3,0.5" ++ Demo.nl.

Definition host_slash : Host :=
  {| file := fun path => if String.eqb path "slash.txt" then Some slash_txt
                         else Demo.files path;
     getenv := Demo.no_env; random := fun k => 7 * Z.of_nat k;
     MAP_SIZE := 65536; uninit := 0%N;
     create_directory_fails := fun _ => false;
     open_fails := fun _ => false;
     setName := fun _ _ name => name;
     AFLGO_TRACING := false |}.

(** A build with [AFLGO_TRACING]. *)
Definition host_tracing : Host :=
  {| file := Demo.files; getenv := Demo.no_env; random := fun k => 7 * Z.of_nat k;
     MAP_SIZE := 65536; uninit := 0%N;
     create_directory_fails := fun _ => false;
     open_fails := fun _ => false;
     setName := fun _ _ name => name;
     AFLGO_TRACING := true |}.

(** A function on the blacklist, with a block that has a location. *)
Definition free_list : Function :=
  {| f_name := "free_list"; f_args := []; f_blocks := [Demo.bb_foo] |}.

(** A block named [zed.c:7] with a later instruction at [foo.c:10]. *)
Definition bb_mixed : BasicBlock :=
  {| bb_id := 5;
     bb_insts := [Demo.inst 9 "zed.c" 7 KOther; Demo.inst 10 "/src/foo.c" 10 KOther] |}.

(** A function with a block at line 0 only, and a target at that line. *)
Definition bb_line0 : BasicBlock :=
  {| bb_id := 6; bb_insts := [Demo.inst 11 "/src/foo.c" 0 KOther] |}.

(** An environment with one variable. *)
Definition env_one (var value : string) : string -> option string :=
  fun v => if String.eqb v var then Some value else None.

(** A world in which three random numbers were drawn. *)
Definition world3 : World := {| rng := 3; trace := []; inst_blocks := 0 |}.

End Cases.

(* ===================================================================== *)
(** ** Properties *)
(* ===================================================================== *)

(** *** Strings *)

Module StringFacts.
Import Cxx Pass.

Lemma find_last_of_drop cs s i :
  find_last_of cs s = Some i -> find_last_of cs (drop (S i) s) = None.
Proof.
  revert i. induction s as [|d s IH]; intros i; simpl; [discriminate|].
  destruct (find_last_of cs s) as [j|] eqn:E.
  - intros [= <-]. apply (IH j eq_refl).
  - destruct (mem_char d cs); [|discriminate].
    intros [= <-]. simpl. exact E.
Qed.

Lemma strip_dir_no_sep s : find_last_of "/\" (strip_dir s) = None.
Proof.
  unfold strip_dir, substr_from.
  destruct (find_last_of "/\" s) as [i|] eqn:E; [|exact E].
  now apply find_last_of_drop.
Qed.

Lemma strip_dir_fixed s : find_last_of "/\" s = None -> strip_dir s = s.
Proof. intros E. unfold strip_dir. now rewrite E. Qed.

Lemma strip_dir_idem s : strip_dir (strip_dir s) = strip_dir s.
Proof. apply strip_dir_fixed, strip_dir_no_sep. Qed.

(** A name without path separator does not begin with [/usr/]. *)
Lemma no_sep_not_Xlibs s :
  find_last_of "/\" s = None ->
  compare_prefix_eq (String.length Xlibs) s Xlibs = false.
Proof.
  destruct s as [|c s]; [reflexivity|]. simpl.
  destruct (find_last_of "/\" s); [discriminate|].
  destruct (Ascii.eqb c "/") eqn:Ec; simpl; [discriminate|].
  intros _. unfold compare_prefix_eq. simpl. now rewrite Ec.
Qed.

(** The test against [Xlibs] in preprocessing comes after the directory was
    cut off: it never holds. *)
Lemma Xlibs_test_is_dead s :
  compare_prefix_eq (String.length Xlibs) (strip_dir s) Xlibs = false.
Proof. apply no_sep_not_Xlibs, strip_dir_no_sep. Qed.

Lemma empty_true s : empty s = true <-> s = "".
Proof. unfold empty. apply String.eqb_eq. Qed.

Lemma empty_false s : empty s = false <-> s <> "".
Proof. unfold empty. apply String.eqb_neq. Qed.

Lemma empty_name f l : empty (f ++ ":" ++ l) = false.
Proof. apply empty_false. destruct f; discriminate. Qed.

Lemma str_find_app c a b :
  find c a = None -> find c (a ++ String c b) = Some (String.length a).
Proof.
  induction a as [|d a IH]; simpl.
  - intros _. now rewrite Ascii.eqb_refl.
  - destruct (Ascii.eqb d c); [discriminate|].
    destruct (find c a); [discriminate|]. intros _. now rewrite IH.
Qed.

Lemma str_take_app a b : take (String.length a) (a ++ b) = a.
Proof. induction a as [|d a IH]; simpl; [now destruct b | now rewrite IH]. Qed.

Lemma str_drop_app a b : drop (String.length a) (a ++ b) = b.
Proof. induction a as [|d a IH]; simpl; auto. Qed.

Lemma str_take_all s n : (String.length s <= n)%nat -> take n s = s.
Proof.
  revert n. induction s as [|d s IH]; intros [|n]; simpl; auto; try lia.
  intros H. f_equal. apply IH. lia.
Qed.

Lemma str_drop_succ_app a c b :
  drop (S (String.length a)) (a ++ String c b) = b.
Proof. induction a as [|e a IH]; simpl; auto. Qed.

Lemma str_length_app a b :
  String.length (a ++ b) = (String.length a + String.length b)%nat.
Proof. induction a as [|d a IH]; simpl; auto. Qed.

End StringFacts.

(** *** Block names in the two modes *)

Module Identity.
Import Cxx IR Pass Spec StringFacts.

Section Names.
Context (h : Host) (o : Options).

Lemma phase2_first_located insts f l :
  first_located insts = Some (f, l) ->
  phase2_bb_name h insts = BlockIdentity f l.
Proof.
  induction insts as [|i rest IH]; simpl; [discriminate|].
  unfold getDebugLoc.
  destruct (inst_dbg i) as [[f' l']|]; simpl; [|exact IH].
  destruct (empty f'); simpl; [exact IH|].
  destruct (l' =? 0)%N; simpl; [exact IH|].
  now intros [= -> ->].
Qed.

Lemma phase2_not_located insts :
  first_located insts = None -> phase2_bb_name h insts = "".
Proof.
  induction insts as [|i rest IH]; simpl; [reflexivity|].
  unfold getDebugLoc.
  destruct (inst_dbg i) as [[f' l']|]; simpl; [|exact IH].
  destruct (empty f'); simpl; [exact IH|].
  destruct (l' =? 0)%N; simpl; [exact IH|discriminate].
Qed.

(** An instruction that preprocessing passes over. *)
Lemma phase1_inst_rejected i st :
  empty (strip_dir (getDebugLoc i (p_filename st, p_line st)).1)
  || ((getDebugLoc i (p_filename st, p_line st)).2 =? 0)%N = true ->
  phase1_inst o i st =
    ({| p_bb_name := p_bb_name st;
        p_filename := strip_dir (getDebugLoc i (p_filename st, p_line st)).1;
        p_line := (getDebugLoc i (p_filename st, p_line st)).2;
        p_is_target := p_is_target st;
        p_targets := p_targets st |}, []).
Proof.
  unfold phase1_inst.
  destruct (getDebugLoc i (p_filename st, p_line st)) as [f l]; simpl.
  intros ->. reflexivity.
Qed.

(** The instruction that names the block. *)
Lemma phase1_inst_names i st f l :
  getDebugLoc i (p_filename st, p_line st) = (f, l) ->
  strip_dir f <> "" -> l <> 0%N -> p_bb_name st = "" ->
  p_bb_name (phase1_inst o i st).1 = BlockIdentity f l.
Proof.
  intros E Hf Hl Hn. unfold phase1_inst. rewrite E.
  apply empty_false in Hf. apply N.eqb_neq in Hl.
  rewrite Hf, Hl, Xlibs_test_is_dead, Hn. simpl.
  rewrite strip_dir_idem.
  destruct (negb (p_is_target st));
    [destruct (match_targets _ _ _ _)|]; destruct (inst_kind i); reflexivity.
Qed.

(** Once the block has a name, it keeps it. *)
Lemma phase1_inst_named i st :
  p_bb_name st <> "" -> p_bb_name (phase1_inst o i st).1 = p_bb_name st.
Proof.
  intros Hn. apply empty_false in Hn. unfold phase1_inst.
  destruct (getDebugLoc i (p_filename st, p_line st)) as [f l].
  destruct (_ || _); [reflexivity|]. rewrite Hn.
  destruct (negb (p_is_target st));
    [destruct (match_targets _ _ _ _)|]; destruct (inst_kind i); reflexivity.
Qed.

Lemma phase1_insts_named insts st :
  p_bb_name st <> "" -> p_bb_name (phase1_insts o insts st).1 = p_bb_name st.
Proof.
  revert st. induction insts as [|i rest IH]; intros st Hn; simpl; [reflexivity|].
  pose proof (phase1_inst_named i st Hn) as H1.
  destruct (phase1_inst o i st) as [st1 out1]; simpl in H1.
  specialize (IH st1). rewrite H1 in IH. specialize (IH Hn).
  destruct (phase1_insts o rest st1) as [st2 out2]; simpl in *. exact IH.
Qed.

Lemma phase1_insts_first_located insts st f l :
  unnamed st ->
  first_located insts = Some (f, l) ->
  strip_dir f <> "" ->
  p_bb_name (phase1_insts o insts st).1 = BlockIdentity f l.
Proof.
  revert st. induction insts as [|i rest IH]; intros st [Hn Hst] Hloc Hf;
    simpl in *; [discriminate|].
  assert (Hstep :
    (unnamed (phase1_inst o i st).1 /\ first_located rest = Some (f, l)) \/
    p_bb_name (phase1_inst o i st).1 = BlockIdentity f l).
  { destruct (inst_dbg i) as [[f' l']|] eqn:Ed.
    - destruct (empty f') eqn:Ef; simpl in Hloc.
      + left. split; [|exact Hloc].
        apply empty_true in Ef. subst f'.
        rewrite phase1_inst_rejected; unfold getDebugLoc; rewrite Ed; simpl;
          [split; auto | reflexivity].
      + destruct (l' =? 0)%N eqn:El; simpl in Hloc.
        * left. split; [|exact Hloc].
          apply N.eqb_eq in El. subst l'.
          rewrite phase1_inst_rejected; unfold getDebugLoc; rewrite Ed; simpl;
            [split; auto | apply orb_true_r].
        * right. injection Hloc as -> ->.
          apply phase1_inst_names; auto.
          -- unfold getDebugLoc. now rewrite Ed.
          -- now apply N.eqb_neq.
    - left. split; [|exact Hloc].
      rewrite phase1_inst_rejected; unfold getDebugLoc; rewrite Ed; simpl.
      + split; [exact Hn|]. destruct Hst as [-> | ->]; auto.
      + destruct Hst as [-> | ->]; [reflexivity | apply orb_true_r]. }
  destruct (phase1_inst o i st) as [st1 out1]; simpl in Hstep.
  destruct Hstep as [[Hun Hrest] | Hnamed].
  - specialize (IH st1 Hun Hrest Hf).
    destruct (phase1_insts o rest st1) as [st2 out2]; simpl in *. exact IH.
  - pose proof (phase1_insts_named rest st1) as Hk.
    rewrite Hnamed in Hk.
    destruct (phase1_insts o rest st1) as [st2 out2]; simpl in *.
    apply Hk. unfold BlockIdentity. apply empty_false, empty_name.
Qed.

(** Both modes name a block after its first located instruction, when the
    file name does not end in a path separator. *)
Lemma names_agree BB f l :
  first_located (bb_insts BB) = Some (f, l) ->
  strip_dir f <> "" ->
  phase1_bb_name h o BB = BlockIdentity f l /\
  phase2_bb_name h (bb_insts BB) = BlockIdentity f l.
Proof.
  intros Hloc Hf. split.
  - unfold phase1_bb_name. apply phase1_insts_first_located; auto.
    split; simpl; auto.
  - now apply phase2_first_located.
Qed.

End Names.

(** Where the file name does not end in a path separator (its last
    component is not empty), the traversal of a block in preprocessing and
    the one in distance instrumentation give the same name, the last
    component of [f], a colon and [l].  The function loop of preprocessing
    passes over the functions on the blacklist before it comes to their
    blocks: [blacklisted_function_is_not_named]. *)
Lemma identity_stable h o BB f l :
  first_located (bb_insts BB) = Some (f, l) ->
  strip_dir f <> "" ->
  phase1_bb_name h o BB = phase2_bb_name h (bb_insts BB) /\
  phase2_bb_name h (bb_insts BB) = BlockIdentity f l.
Proof.
  intros Hloc Hf. destruct (names_agree h o BB f l Hloc Hf) as [H1 H2].
  split; congruence.
Qed.

(** C2: the code at a block whose first instruction with a file and a line
    is at file [src/], line 3, in the function [work], which is not on the
    blacklist.  The claim has both modes name the block [":3"].
    Preprocessing cuts the directory off before it tests for an empty file
    name, passes over the instruction and gives the block no name: the run
    opens its ledgers and writes nothing.  Distance instrumentation tests
    first and cuts afterwards: it names the block [":3"], finds that name
    in the distance file and injects the distance code under it. *)
Theorem trailing_separator_splits_the_names :
  first_located (bb_insts Demo.bb_slash) = Some ("src/", 3%N) /\
  BlockIdentity "src/" 3 = ":3" /\
  isBlacklisted "work" = false /\
  phase1_bb_name Cases.host_slash (Demo.opts "BBtargets.txt" "" "out" "" "")
    Demo.bb_slash = "" /\
  phase2_bb_name Cases.host_slash (bb_insts Demo.bb_slash) = ":3" /\
  runOnModule Cases.host_slash (Demo.opts "BBtargets.txt" "" "out" "" "")
    (Demo.only Demo.bb_slash) world0 =
    (Done tt,
     {| rng := 0;
        trace := [OpenAppend "out/BBnames.txt"; OpenAppend "out/BBcalls.txt";
                  OpenAppend "out/Fnames.txt"; OpenAppend "out/Ftargets.txt";
                  CreateDirectory "out/dot-files"];
        inst_blocks := 0 |}) /\
  runOnModule Cases.host_slash (Demo.opts "" "slash.txt" "" "" "")
    (Demo.only Demo.bb_slash) world0 =
    (Done tt,
     {| rng := 3;
        trace := [InitTypes; NewGlobal "__afl_area_ptr"; NewGlobal "__afl_prev_loc";
                  ClearLocalVariables;
                  Coverage "work" 4 14; Distance "work" 4 ":3"];
        inst_blocks := 1 |}).
Proof. repeat split; vm_compute; reflexivity. Qed.

(** Preprocessing passes over a function on the blacklist: the block
    [foo.c:10] of [free_list] gets no name there; distance instrumentation
    has no such test, names the block and instruments it. *)
Lemma blacklisted_function_is_not_named :
  isBlacklisted "free_list" = true /\
  runOnModule (Demo.host Demo.no_env) (Demo.opts "BBtargets.txt" "" "out" "" "")
    [Cases.free_list] world0 =
    (Done tt,
     {| rng := 0;
        trace := [OpenAppend "out/BBnames.txt"; OpenAppend "out/BBcalls.txt";
                  OpenAppend "out/Fnames.txt"; OpenAppend "out/Ftargets.txt";
                  CreateDirectory "out/dot-files"];
        inst_blocks := 0 |}) /\
  runOnModule (Demo.host Demo.no_env) Demo.distance_only [Cases.free_list] world0 =
    (Done tt,
     {| rng := 3;
        trace := [InitTypes; NewGlobal "__afl_area_ptr"; NewGlobal "__afl_prev_loc";
                  ClearLocalVariables;
                  Coverage "free_list" 0 14; Distance "free_list" 0 "foo.c:10"];
        inst_blocks := 1 |}).
Proof. repeat split; vm_compute; reflexivity. Qed.

(** C6: the code at an instruction of [/usr/include/stdio.h], line 27, that
    comes first in its block.  The claim has it rejected in both modes, so
    that the block is named after the next instruction, [foo.c:12]; both
    modes name the block [stdio.h:27], and preprocessing writes that name
    to the ledger of block names. *)
Theorem usr_file_names_the_block :
  first_located (bb_insts Demo.bb_usr) = Some ("/usr/include/stdio.h", 27%N) /\
  String.prefix Xlibs "/usr/include/stdio.h" = true /\
  phase1_bb_name (Demo.host Demo.no_env) Demo.distance_only Demo.bb_usr = "stdio.h:27" /\
  phase2_bb_name (Demo.host Demo.no_env) (bb_insts Demo.bb_usr) = "stdio.h:27" /\
  (runOnModule (Demo.host Demo.no_env) (Demo.opts "BBtargets.txt" "" "out" "" "")
     (Demo.only Demo.bb_usr) world0).2 =
    {| rng := 0;
       trace := [OpenAppend "out/BBnames.txt"; OpenAppend "out/BBcalls.txt";
                 OpenAppend "out/Fnames.txt"; OpenAppend "out/Ftargets.txt";
                 CreateDirectory "out/dot-files";
                 SetName "work" 3 "stdio.h:27:";
                 Append "out/BBnames.txt" "stdio.h:27:";
                 OpenGraph "out/dot-files/cfg.work.dot";
                 WriteGraph "out/dot-files/cfg.work.dot" "work";
                 Append "out/Fnames.txt" "work"];
       inst_blocks := 0 |}.
Proof. repeat split; vm_compute; reflexivity. Qed.

End Identity.

(** *** The monad *)

Module MonadFacts.
Import Pass.

Lemma bind_unfold {A B} (m : M A) (k : A -> M B) w :
  (m ≫= k) w =
  match m w with
  | (Done a, w') => k a w'
  | (Fatal msg, w') => (Fatal msg, w')
  | (Thrown what, w') => (Thrown what, w')
  end.
Proof. reflexivity. Qed.

Lemma bind_Done {A B} (m : M A) (k : A -> M B) w a w' :
  m w = (Done a, w') -> (m ≫= k) w = k a w'.
Proof. intros E. now rewrite bind_unfold, E. Qed.

Lemma bind_Fatal {A B} (m : M A) (k : A -> M B) w msg w' :
  m w = (Fatal msg, w') -> (m ≫= k) w = (Fatal msg, w').
Proof. intros E. now rewrite bind_unfold, E. Qed.

Lemma world_eta w :
  {| rng := rng w; trace := trace w; inst_blocks := inst_blocks w |} = w.
Proof. now destruct w. Qed.

Lemma emits_nil w : emits [] w = (Done tt, w).
Proof. unfold emits. now rewrite app_nil_r, world_eta. Qed.

End MonadFacts.

(** *** Command line *)

Module CommandLine.
Import Cxx IR Pass Spec StringFacts MonadFacts.

(** C4: when both a targets file and a distance file are given, the pass
    ends in [FATAL] before anything else: the world is as it was, no file
    was opened or written and no code was injected. *)
Theorem both_files_is_fatal h o Mod w :
  TargetsFile o <> "" -> DistanceFile o <> "" ->
  runOnModule h o Mod w =
    (Fatal "Cannot specify both '-targets' and '-distance'!", w).
Proof.
  intros Ht Hd. apply empty_false in Ht, Hd.
  unfold runOnModule. apply bind_Fatal.
  unfold load. now rewrite Ht, Hd.
Qed.

Lemma both_files_is_fatal_witness :
  runOnModule (Demo.host Demo.no_env)
    (Demo.opts "BBtargets.txt" "distance.cfg.txt" "out" "" "")
    Demo.module world0 =
    (Fatal "Cannot specify both '-targets' and '-distance'!", world0).
Proof. apply both_files_is_fatal; discriminate. Defined.

End CommandLine.

(** *** Monitoring *)

Module Monitoring.
Import Cxx IR Pass Spec StringFacts MonadFacts.

Section Hooks.
Context (h : Host) (ld : Loaded).

Lemma monitor_inst_hooks F i tr :
  (count is_hook (monitor_inst h ld F i tr).2
   + budget (monitor_inst h ld F i tr).1 <= budget tr)%nat /\
  (count is_state_hook (monitor_inst h ld F i tr).2
   + budget (monitor_inst h ld F i tr).1 <= budget tr)%nat /\
  (count is_trace_hook (monitor_inst h ld F i tr).2
   + budget (monitor_inst h ld F i tr).1 <= budget tr)%nat.
Proof.
  unfold monitor_inst, count.
  destruct (getDebugLoc i ("", uninit h)) as [f l].
  destruct (empty f || (l =? 0)%N); simpl; [lia|].
  destruct (is_RERS_fuzzing ld), (String.eqb (f_name F) "main"), (inst_kind i), tr;
    simpl; repeat case_match; simplify_eq/=; lia.
Qed.

Lemma monitor_insts_hooks F insts tr :
  (count is_hook (monitor_insts h ld F insts tr) <= budget tr)%nat /\
  (count is_state_hook (monitor_insts h ld F insts tr) <= budget tr)%nat /\
  (count is_trace_hook (monitor_insts h ld F insts tr) <= budget tr)%nat.
Proof.
  revert tr. induction insts as [|i rest IH]; intros tr; simpl;
    [unfold count; simpl; lia|].
  pose proof (monitor_inst_hooks F i tr) as H1.
  destruct (monitor_inst h ld F i tr) as [tr' out]; simpl in H1.
  specialize (IH tr'). unfold count in *.
  rewrite !List.filter_app, !List.length_app. lia.
Qed.

(** C7: whatever a block holds, and however many of its instructions are
    named in the event map, its processing injects at most one group of
    monitoring hooks: at most one call of the automaton or proposition
    handler, at most one call of the state handler and at most one trace
    evaluation of protocol mode. *)
Theorem one_hook_per_block inst_ratio is_selective dinst_ratio F BB w :
  exists es,
    trace (phase2_block h ld inst_ratio is_selective dinst_ratio F BB w).2
      = (trace w ++ es)%list /\
    (count is_hook es <= 1)%nat /\ (count is_state_hook es <= 1)%nat /\
    (count is_trace_hook es <= 1)%nat.
Proof.
  pose proof (monitor_insts_hooks F (bb_insts BB) false) as (Hh & Hs & Ht).
  fold (monitor_block h ld F BB) in Hh, Hs, Ht. simpl in Hh, Hs, Ht.
  unfold phase2_block, find_distance, emit, emits, AFL_R, incr_inst_blocks,
    mbind, mret, M_bind, M_ret.
  destruct (is_aflgo ld), (is_ltl_fuzzing ld); simpl;
  repeat (case_match; simplify_eq/=);
  try (exists []; rewrite app_nil_r; split; [reflexivity | unfold count; simpl; lia]);
  rewrite <- ?app_assoc; eexists; (split; [reflexivity|]);
  unfold count in *; rewrite ?List.filter_app, ?List.length_app; simpl; lia.
Qed.



Lemma monitor_inst_automaton F i tr :
  is_RERS_fuzzing ld = true ->
  Forall (fun e => protocol_effect e = false) (monitor_inst h ld F i tr).2.
Proof.
  intros H. unfold monitor_inst. rewrite H.
  destruct (getDebugLoc i ("", uninit h)) as [f l].
  destruct (empty f || (l =? 0)%N); simpl; [constructor|].
  destruct (String.eqb (f_name F) "main"), (inst_kind i), tr;
    simpl; repeat case_match; simplify_eq/=; repeat constructor.
Qed.

Lemma monitor_inst_protocol F i tr :
  is_RERS_fuzzing ld = false ->
  Forall (fun e => automaton_effect e = false) (monitor_inst h ld F i tr).2.
Proof.
  intros H. unfold monitor_inst. rewrite H.
  destruct (getDebugLoc i ("", uninit h)) as [f l].
  destruct (empty f || (l =? 0)%N); simpl; [constructor|].
  rewrite andb_false_r.
  destruct tr; simpl; repeat case_match; simplify_eq/=; repeat constructor.
Qed.

Lemma monitor_insts_automaton F insts tr :
  is_RERS_fuzzing ld = true ->
  Forall (fun e => protocol_effect e = false) (monitor_insts h ld F insts tr).
Proof.
  intros H. revert tr. induction insts as [|i rest IH]; intros tr; simpl;
    [constructor|].
  pose proof (monitor_inst_automaton F i tr H) as H1.
  destruct (monitor_inst h ld F i tr) as [tr' out]. apply Forall_app; auto.
Qed.

Lemma monitor_insts_protocol F insts tr :
  is_RERS_fuzzing ld = false ->
  Forall (fun e => automaton_effect e = false) (monitor_insts h ld F insts tr).
Proof.
  intros H. revert tr. induction insts as [|i rest IH]; intros tr; simpl;
    [constructor|].
  pose proof (monitor_inst_protocol F i tr H) as H1.
  destruct (monitor_inst h ld F i tr) as [tr' out]. apply Forall_app; auto.
Qed.






End Hooks.

(** *** Automaton events shadow protocol events *)


(** The event map is looked up under the location of the instruction, not
    under the name of the block: a block named [zed.c:7] gets the automaton
    handler at its later instruction at [foo.c:10]. *)
Lemma later_instruction_brings_the_hook :
  phase2_bb_name (Demo.host Demo.no_env) (bb_insts Cases.bb_mixed) = "zed.c:7" /\
  loc_to_revt (Demo.ld_of Demo.both_events) !! "zed.c:7" = None /\
  monitor_block (Demo.host Demo.no_env) (Demo.ld_of Demo.both_events)
    Demo.work Cases.bb_mixed =
    [StoreLocalVariables (Demo.inst 9 "zed.c" 7 KOther);
     StoreLocalVariables (Demo.inst 10 "/src/foo.c" 10 KOther);
     InstrAutomataHandler "work" (Demo.inst 10 "/src/foo.c" 10 KOther)
       (Some "input") 3;
     StoreGlobalVariables;
     InstrStateHandler (Demo.inst 10 "/src/foo.c" 10 KOther)].
Proof. repeat split; vm_compute; reflexivity. Qed.


End Monitoring.

(** *** Rules for the monad *)

Module Effects.
Import Cxx IR Pass Spec StringFacts MonadFacts.

Section Rules.
Context (P : Effect -> Prop).

Lemma quiet_emits_only {A} (m : M A) : quiet m -> emits_only P m.
Proof. intros H w. exists []. rewrite H, app_nil_r. auto. Qed.

Lemma quiet_ret {A} (a : A) : quiet (mret a).
Proof. intros w. reflexivity. Qed.

Lemma quiet_FATAL {A} msg : quiet (@FATAL A msg).
Proof. intros w. reflexivity. Qed.

Lemma quiet_throw {A} what : quiet (@throw A what).
Proof. intros w. reflexivity. Qed.

Lemma quiet_bind {A B} (m : M A) (k : A -> M B) :
  quiet m -> (forall a, quiet (k a)) -> quiet (m ≫= k).
Proof.
  intros Hm Hk w. rewrite bind_unfold. specialize (Hm w).
  destruct (m w) as [[a| |] w']; simpl in *; subst; auto. apply Hk.
Qed.

Lemma emits_only_bind {A B} (m : M A) (k : A -> M B) :
  emits_only P m ->
  (forall a w w', m w = (Done a, w') -> emits_only P (k a)) ->
  emits_only P (m ≫= k).
Proof.
  intros Hm Hk w. rewrite bind_unfold. destruct (Hm w) as (es1 & E1 & F1).
  destruct (m w) as [[a| |] w'] eqn:E; simpl in *; eauto.
  destruct (Hk a w w' E w') as (es2 & E2 & F2).
  exists (es1 ++ es2)%list. rewrite E2, E1, app_assoc. split; auto.
  apply Forall_app; auto.
Qed.

Lemma emits_only_emits es : Forall P es -> emits_only P (emits es).
Proof. intros H w. exists es. auto. Qed.

Lemma emits_only_AFL_R h x : emits_only P (AFL_R h x).
Proof. intros w. exists []. simpl. rewrite app_nil_r. auto. Qed.

Lemma emits_only_incr : emits_only P incr_inst_blocks.
Proof. intros w. exists []. simpl. rewrite app_nil_r. auto. Qed.

Lemma emits_only_for_each {A} (l : list A) (body : A -> M unit) :
  (forall x, emits_only P (body x)) -> emits_only P (for_each l body).
Proof.
  intros H. induction l as [|x l IH]; simpl.
  - apply quiet_emits_only, quiet_ret.
  - apply emits_only_bind; auto.
Qed.

End Rules.

End Effects.

(** *** Loading *)

Module Loading.
Import Cxx IR Pass Spec StringFacts MonadFacts Effects.

Section Loading.
Context (h : Host) (o : Options).

Lemma quiet_load_revents lines m : quiet (load_revents lines m).
Proof.
  revert m. induction lines as [|l ls IH]; intros m w; simpl; [reflexivity|].
  case_match; [apply IH | reflexivity].
Qed.

Lemma quiet_open_revents : quiet (open_revents h o).
Proof.
  unfold open_revents. destruct (negb _); [|apply quiet_ret].
  destruct (file h _); [|apply quiet_ret].
  apply quiet_bind; [apply quiet_load_revents | intros; apply quiet_ret].
Qed.

Lemma quiet_load : quiet (load h o).
Proof.
  unfold load. repeat case_match; try apply quiet_ret; try apply quiet_FATAL.
  apply quiet_bind; [apply quiet_open_revents | intros; apply quiet_ret].
Qed.

Lemma quiet_ratio var msg : quiet (ratio h var msg).
Proof. unfold ratio. repeat case_match; try apply quiet_ret; apply quiet_FATAL. Qed.

Lemma quiet_selective : quiet (selective h).
Proof. unfold selective. repeat case_match; try apply quiet_ret; apply quiet_FATAL. Qed.

(** The flags [load] sets. *)
Lemma open_revents_Some w m w' :
  open_revents h o w = (Done (Some m), w') ->
  REventsFile o <> "" /\ is_Some (file h (REventsFile o)).
Proof.
  unfold open_revents. destruct (empty (REventsFile o)) eqn:E; simpl; [discriminate|].
  apply empty_false in E. destruct (file h (REventsFile o)); [eauto|discriminate].
Qed.

Lemma open_pevents_Some m :
  open_pevents h o = Some m ->
  PEventsFile o <> "" /\ is_Some (file h (PEventsFile o)).
Proof.
  unfold open_pevents. destruct (empty (PEventsFile o)) eqn:E; simpl; [discriminate|].
  apply empty_false in E. destruct (file h (PEventsFile o)); [eauto|discriminate].
Qed.

Lemma load_flags w ld w' :
  load h o w = (Done ld, w') ->
  is_ltl_fuzzing ld = is_RERS_fuzzing ld || is_protocol_fuzzing ld /\
  (is_RERS_fuzzing ld = true ->
   DistanceFile o <> "" /\ is_Some (file h (REventsFile o))) /\
  (is_protocol_fuzzing ld = true ->
   DistanceFile o <> "" /\ is_Some (file h (PEventsFile o))).
Proof.
  unfold load.
  destruct (negb (empty (TargetsFile o)) && negb (empty (DistanceFile o)));
    [discriminate|].
  destruct (negb (empty (TargetsFile o))).
  { destruct (empty (OutDirectory o)); [discriminate|].
    intros [= <- <-]. simpl. repeat split; discriminate. }
  destruct (empty (DistanceFile o)) eqn:Ed; simpl.
  { intros [= <- <-]. simpl. repeat split; discriminate. }
  apply empty_false in Ed.
  destruct (file h (DistanceFile o)) as [cf|]; [|discriminate].
  rewrite bind_unfold.
  destruct (open_revents h o w) as [[revt| |] w1] eqn:Er; try discriminate.
  intros [= <- <-]. simpl. split; [reflexivity|]. split.
  - intros H. apply bool_decide_eq_true in H as [m ->].
    apply open_revents_Some in Er. tauto.
  - intros H. apply bool_decide_eq_true in H as [m Hm].
    apply open_pevents_Some in Hm. tauto.
Qed.

Lemma load_distance_file w ld w' cf :
  load h o w = (Done ld, w') -> is_aflgo ld = true ->
  file h (DistanceFile o) = Some cf ->
  bb_to_dis ld = (load_distances (getlines cf)).1 /\
  basic_blocks ld = (load_distances (getlines cf)).2.
Proof.
  unfold load. intros H Ha Hf. rewrite Hf in H.
  destruct (negb (empty (TargetsFile o)) && negb (empty (DistanceFile o)));
    [discriminate|].
  destruct (negb (empty (TargetsFile o))).
  { destruct (empty (OutDirectory o)); [discriminate|].
    injection H as <- <-. discriminate. }
  destruct (negb (empty (DistanceFile o))).
  - rewrite bind_unfold in H.
    destruct (open_revents h o w) as [[revt| |] w1]; try discriminate.
    injection H as <- <-. auto.
  - injection H as <- <-. discriminate.
Qed.

(** With a distance file and an automaton event file that opens, [load]
    turns automaton mode on. *)
Lemma load_sets_automaton_mode w ld w' :
  load h o w = (Done ld, w') ->
  TargetsFile o = "" -> DistanceFile o <> "" ->
  REventsFile o <> "" -> is_Some (file h (REventsFile o)) ->
  is_RERS_fuzzing ld = true /\ is_ltl_fuzzing ld = true.
Proof.
  intros Hld Ht Hd Hr [ef Hef]. revert Hld.
  apply empty_false in Hd, Hr.
  unfold load. rewrite Ht, Hd. simpl.
  destruct (file h (DistanceFile o)) as [cf|]; [|discriminate].
  rewrite bind_unfold. unfold open_revents. rewrite Hr, Hef. simpl.
  rewrite bind_unfold.
  destruct (load_revents (getlines ef) ∅ w) as [[m| |] w1]; try discriminate.
  intros [= <- <-]. simpl. auto.
Qed.
End Loading.

End Loading.

(** *** The distance file *)

Module Distances.
Import Cxx IR Pass Spec StringFacts MonadFacts Effects Loading.

Lemma scan_absent (l : list (string * Z)) bb_name d :
  bb_name ∉ l.*1 -> foldl (keep bb_name) d l = d.
Proof.
  revert d. induction l as [|[k v] l IH]; intros d Hn; simpl; [reflexivity|].
  rewrite fmap_cons, not_elem_of_cons in Hn. destruct Hn as [Hk Hl].
  unfold keep at 2. simpl. 
  destruct (String.eqb_spec k bb_name) as [->|_]; [done|]. now apply IH.
Qed.

Lemma scan_present (l : list (string * Z)) bb_name d v :
  NoDup l.*1 -> (bb_name, v) ∈ l -> foldl (keep bb_name) d l = v.
Proof.
  revert d. induction l as [|[k v'] l IH]; intros d Hnd Hin; simpl.
  - by apply elem_of_nil in Hin.
  - rewrite fmap_cons, NoDup_cons in Hnd. destruct Hnd as [Hk Hnd].
    apply elem_of_cons in Hin as [[= <- <-]|Hin].
    + unfold keep at 2. simpl. rewrite String.eqb_refl. now apply scan_absent.
    + unfold keep at 2. simpl.
      destruct (String.eqb_spec k bb_name) as [->|_]; [|now apply IH].
      exfalso. apply Hk. apply list_elem_of_fmap. now exists (bb_name, v).
Qed.

Lemma scan_distance_lookup (m : gmap string Z) bb_name d :
  scan_distance m bb_name d = default d (m !! bb_name).
Proof.
  unfold scan_distance. change (fun distance it => _) with (keep bb_name).
  destruct (m !! bb_name) as [v|] eqn:E; simpl.
  - apply scan_present; [apply NoDup_fst_map_to_list|].
    now apply elem_of_map_to_list.
  - apply scan_absent. intros Hin. apply list_elem_of_fmap in Hin as [[k v] [-> Hin]].
    apply elem_of_map_to_list in Hin. simpl in E. congruence.
Qed.

Lemma step_eq acc line :
  step acc line =
    (emplace acc.1 (distance_line line).1 (distance_line line).2,
     (acc.2 ++ [(distance_line line).1])%list).
Proof. unfold step. now destruct (distance_line line). Qed.

Lemma load_distances_step lines acc bb_name :
  (foldl step acc lines).1 !! bb_name =
    match acc.1 !! bb_name with
    | Some v => Some v
    | None => first_value lines bb_name
    end /\
  (bb_name ∈ (foldl step acc lines).2 <->
   bb_name ∈ acc.2 \/ is_Some (first_value lines bb_name)).
Proof.
  revert acc. induction lines as [|line rest IH]; intros [m bbs].
  - simpl. split; [now destruct (m !! bb_name)|].
    split; [auto|]. intros [H|[? H]]; [done|discriminate].
  - change (foldl step (m, bbs) (line :: rest))
      with (foldl step (step (m, bbs) line) rest).
    change (first_value (line :: rest) bb_name)
      with (if String.eqb (distance_line line).1 bb_name
            then Some (distance_line line).2 else first_value rest bb_name).
    destruct (IH (step (m, bbs) line)) as [IH1 IH2]. clear IH.
    rewrite IH1, IH2, step_eq. clear IH1 IH2.
    destruct (distance_line line) as [n d]. simpl.
    destruct (String.eqb_spec n bb_name) as [->|Hne].
    + split.
      * unfold emplace.
        destruct (m !! bb_name) eqn:Em; [now rewrite Em|].
        now rewrite lookup_insert_eq.
      * rewrite elem_of_app, list_elem_of_singleton.
        split; [intros _; right; by eexists | intros _; left; by right].
    + split.
      * unfold emplace.
        destruct (m !! n) eqn:Em; [reflexivity|].
        now rewrite lookup_insert_ne.
      * rewrite elem_of_app, list_elem_of_singleton.
        split; [intros [[?|?]|?]; [by left | congruence | by right]
               | intros [?|?]; [left; by left | by right]].
Qed.

Lemma load_distances_lookup lines bb_name :
  (load_distances lines).1 !! bb_name = first_value lines bb_name /\
  (bb_name ∈ (load_distances lines).2 <-> is_Some (first_value lines bb_name)).
Proof.
  unfold load_distances.
  change (fun acc line => _) with step.
  destruct (load_distances_step lines (∅, []) bb_name) as [H1 H2]. simpl in *.
  rewrite lookup_empty in H1. split; [exact H1|].
  rewrite H2. split; [intros [H|H]; [by apply elem_of_nil in H|done]|auto].
Qed.

Lemma distance_line_fields id d :
  Cxx.find "," id = None ->
  distance_line (id ++ "," ++ d) =
    (id, Double.to_int (Double.mul (Double.Fin 100%Q) (Double.atof d))).
Proof.
  intros Hid. unfold distance_line.
  change (id ++ "," ++ d) with (id ++ String "," d).
  rewrite (str_find_app _ _ _ Hid).
  cbn [substr_to pos_succ]. unfold substr.
  rewrite str_take_app, str_drop_succ_app, str_take_all; [reflexivity|].
  rewrite str_length_app. simpl. lia.
Qed.

Lemma to_int_truncates q :
  (0 <= q)%Q -> (q < inject_Z (2 ^ 31))%Q ->
  (inject_Z (Double.to_int (Double.Fin q)) <= q)%Q /\
  (q < inject_Z (Double.to_int (Double.Fin q)) + 1)%Q.
Proof.
  destruct q as [a b]. unfold Qle, Qlt, Double.to_int. simpl.
  change (2 ^ 31) with 2147483648. intros Ha Hb.
  assert (0 <= a) by lia.
  rewrite Z.quot_div_nonneg by lia.
  assert (0 <= a / Z.pos b) by (apply Z.div_pos; lia).
  assert (a / Z.pos b < 2147483648) by (apply Z.div_lt_upper_bound; lia).
  destruct (_ && _) eqn:E;
    [|apply andb_false_iff in E as [E|E]; apply Z.leb_gt in E; lia].
  pose proof (Z.mul_div_le a (Z.pos b) ltac:(lia)).
  pose proof (Z.mul_succ_div_gt a (Z.pos b) ltac:(lia)).
  change (Z.pos (1 * 1)) with 1. split; lia.
Qed.

(** C1 (amended): when the name of a block stands on several lines of the
    distance file and the sample of the distance ratio passes, the distance
    found for the block is the value of the first of these lines:
    [emplace] keeps the entry that is there. *)
Theorem first_entry_wins h o ld cf is_selective dinst_ratio bb_name v w0 w1 w :
  load h o w0 = (Done ld, w1) ->
  is_aflgo ld = true ->
  file h (DistanceFile o) = Some cf ->
  bb_name <> "" ->
  first_value (getlines cf) bb_name = Some v ->
  Z.rem (random h (rng w)) 100 < dinst_ratio ->
  (find_distance h ld is_selective dinst_ratio bb_name w).1 = Done (Some v).
Proof.
  intros Hld Ha Hf Hn Hv Hr.
  destruct (load_distance_file h o w0 ld w1 cf Hld Ha Hf) as [Hm Hb].
  destruct (load_distances_lookup (getlines cf) bb_name) as [H1 H2].
  unfold find_distance. apply empty_false in Hn. rewrite Hn. simpl.
  rewrite bool_decide_eq_true_2 by (rewrite Hb; apply H2; eauto). simpl.
  rewrite bind_unfold. unfold AFL_R. simpl.
  apply Z.ltb_lt in Hr. rewrite Hr. simpl.
  now rewrite scan_distance_lookup, Hm, H1, Hv.
Qed.

Lemma first_entry_wins_witness :
  (find_distance (Demo.host Demo.no_env) (Demo.ld_of Demo.distance_only)
     0 100 "foo.c:10" world0).1 = Done (Some 25).
Proof.
  apply (first_entry_wins (Demo.host Demo.no_env) Demo.distance_only
           (Demo.ld_of Demo.distance_only) Demo.distance_txt 0 100 "foo.c:10" 25
           world0 world0 world0).
  - vm_compute. reflexivity.
  - reflexivity.
  - reflexivity.
  - discriminate.
  - vm_compute. reflexivity.
  - vm_compute. reflexivity.
Defined.

(** C1 as stated fails: [foo.c:10] stands on two lines, with 0.25 and then
    0.75; the value of the last line is 75, the distance found is 25. *)
Lemma last_entry_does_not_win :
  getlines Demo.distance_txt = ["foo.c:10,0.25"; "foo.c:10,0.75"; "bar.c:3,1.5"] /\
  last_value (getlines Demo.distance_txt) "foo.c:10" = Some 75 /\
  ((ld ← load (Demo.host Demo.no_env) Demo.distance_only;
    find_distance (Demo.host Demo.no_env) ld 0 100 "foo.c:10") world0).1
  = Done (Some 25).
Proof. repeat split; vm_compute; reflexivity. Qed.

(** C5 (amended): a line [id,d] of the distance file, [id] without comma,
    stores for [id] the product [100.0 * atof(d)], taken in double
    precision and cut toward zero by the cast to [int]: when the product is
    a value [q] with [0 <= q < 2^31], the stored integer [n] has
    [n <= q < n + 1].  It is not rounded. *)
Theorem stored_distance_is_truncated id d :
  find "," id = None ->
  distance_line (id ++ "," ++ d) =
    (id, Double.to_int (Double.mul (Double.Fin 100%Q) (Double.atof d))) /\
  (forall q,
     Double.mul (Double.Fin 100%Q) (Double.atof d) = Double.Fin q ->
     (0 <= q)%Q -> (q < inject_Z (2 ^ 31))%Q ->
     (inject_Z (distance_line (id ++ "," ++ d)).2 <= q)%Q /\
     (q < inject_Z (distance_line (id ++ "," ++ d)).2 + 1)%Q).
Proof.
  intros Hid. rewrite (distance_line_fields id d Hid). split; [reflexivity|].
  intros q -> H0 H1. simpl snd. now apply to_int_truncates.
Qed.

(** The line ["foo.c:10,0.37"] stores 37: the double next to 0.37 is below
    0.37, and the product with 100.0 rounds to 37.0. *)
Lemma stored_distance_is_truncated_witness :
  find "," "foo.c:10" = None /\
  distance_line "foo.c:10,0.37" = ("foo.c:10", 37).
Proof.
  split; [reflexivity|].
  destruct (stored_distance_is_truncated "foo.c:10" "0.37" eq_refl) as [E _].
  refine (eq_trans E _). vm_compute. reflexivity.
Defined.

(** C5 as stated fails: 0.1875 is a double, 100 times it is 18.75, which
    rounds to 19; the line stores 18. *)
Lemma stored_distance_is_not_rounded :
  Double.atof "0.1875" = Double.Fin (3 # 16)%Q /\
  Spec.round (100 * (3 # 16))%Q = 19 /\
  distance_line "foo.c:10,0.1875" = ("foo.c:10", 18).
Proof. repeat split; vm_compute; reflexivity. Qed.

End Distances.

(** *** Selective mode *)

Module Selective.
Import Cxx IR Pass Spec StringFacts MonadFacts.

(** C3 (amended): in distance mode with the selective flag set, a block
    whose name is not among the known blocks is left as a whole: the loop
    goes on to the next block before the monitoring loop, so no local
    variable is registered, no hook and no coverage code is injected and no
    random number is drawn, whether monitoring is on or not. *)
Theorem selective_skip_is_total h ld inst_ratio is_selective dinst_ratio F BB w :
  is_aflgo ld = true -> is_selective <> 0 ->
  phase2_bb_name h (bb_insts BB) <> "" ->
  phase2_bb_name h (bb_insts BB) ∉ basic_blocks ld ->
  phase2_block h ld inst_ratio is_selective dinst_ratio F BB w = (Done tt, w).
Proof.
  intros Ha Hs Hn Hnot. unfold phase2_block. rewrite Ha.
  unfold find_distance.
  apply empty_false in Hn. rewrite Hn. simpl.
  rewrite bool_decide_eq_false_2 by exact Hnot. simpl.
  apply Z.eqb_neq in Hs. rewrite Hs. reflexivity.
Qed.

Lemma selective_skip_is_total_witness :
  is_ltl_fuzzing (Demo.ld_of Demo.with_pevents) = true /\
  phase2_block (Demo.host (Demo.env_selective "1")) (Demo.ld_of Demo.with_pevents)
    100 1 100 Demo.work Demo.bb_zed world0 = (Done tt, world0).
Proof.
  split; [vm_compute; reflexivity|].
  apply selective_skip_is_total.
  - vm_compute. reflexivity.
  - discriminate.
  - vm_compute. discriminate.
  - apply (proj1 (bool_decide_eq_false _)). vm_compute. reflexivity.
Defined.

(** C3 as stated fails: the block [zed.c:7] is named in the protocol events
    and not in the distance file.  Without the selective flag it gets the
    monitoring code and the coverage code; with the flag it gets nothing,
    the monitoring code included. *)
Lemma selective_skip_drops_monitoring :
  runOnModule (Demo.host Demo.no_env) Demo.with_pevents
    (Demo.only Demo.bb_zed) world0 =
    (Done tt,
     {| rng := 2;
        trace := [InitTypes; NewGlobal "__afl_area_ptr"; NewGlobal "__afl_prev_loc";
                  ClearLocalVariables;
                  StoreLocalVariables (Demo.inst 5 "zed.c" 7 KRet);
                  InstrPropHandler (Demo.inst 5 "zed.c" 7 KRet) "close";
                  StoreGlobalVariables;
                  PrintGlobalVariables "zed.c:7";
                  PrintLocalVariables "zed.c:7";
                  InstrStateHandler (Demo.inst 5 "zed.c" 7 KRet);
                  InstrEvaluateTrace (Demo.inst 5 "zed.c" 7 KRet) 1;
                  Coverage "work" 2 7];
        inst_blocks := 1 |}) /\
  runOnModule (Demo.host (Demo.env_selective "1")) Demo.with_pevents
    (Demo.only Demo.bb_zed) world0 =
    (Done tt,
     {| rng := 0;
        trace := [InitTypes; NewGlobal "__afl_area_ptr"; NewGlobal "__afl_prev_loc";
                  ClearLocalVariables];
        inst_blocks := 0 |}).
Proof. split; vm_compute; reflexivity. Qed.

End Selective.

(** *** The environment *)

Module Environment.
Import Cxx IR Pass Spec StringFacts MonadFacts.

(** A ratio that does not parse, is zero or is above 100 ends the pass. *)
Lemma ratio_out_of_range_is_fatal h var msg str w :
  getenv h var = Some str ->
  (sscanf_u str = None \/ exists v, sscanf_u str = Some v /\ (v = 0 \/ 100 < v)) ->
  ratio h var msg w = (Fatal msg, w).
Proof.
  intros He [Hs | (v & Hs & Hv)]; unfold ratio; rewrite He, Hs; [reflexivity|].
  destruct Hv as [-> | Hv]; [reflexivity|].
  apply Z.ltb_lt in Hv. rewrite Hv, orb_true_r. reflexivity.
Qed.

Lemma bad_ratio_is_fatal h o Mod var str w :
  var = "AFL_INST_RATIO" \/ var = "AFLGO_INST_RATIO" ->
  getenv h var = Some str ->
  (sscanf_u str = None \/ exists v, sscanf_u str = Some v /\ (v = 0 \/ 100 < v)) ->
  failed (runOnModule h o Mod w).1 = true.
Proof.
  intros Hvar He Hbad. unfold runOnModule. rewrite bind_unfold.
  destruct (load h o w) as [[ld| |] w1]; try reflexivity.
  rewrite bind_unfold.
  destruct (ratio h "AFL_INST_RATIO" _ w1) as [[ir| |] w2] eqn:E1; try reflexivity.
  rewrite bind_unfold.
  destruct (selective h w2) as [[sel| |] w3]; try reflexivity.
  rewrite bind_unfold. destruct Hvar as [-> | ->].
  - rewrite (ratio_out_of_range_is_fatal h _ _ str w1 He Hbad) in E1. discriminate.
  - now rewrite (ratio_out_of_range_is_fatal h _ _ str w3 He Hbad).
Qed.

(** A selective flag that does not parse ends the pass. *)
Lemma malformed_selective_fails h o Mod str w :
  getenv h "AFLGO_SELECTIVE" = Some str -> sscanf_u str = None ->
  failed (runOnModule h o Mod w).1 = true.
Proof.
  intros He Hs. unfold runOnModule. rewrite bind_unfold.
  destruct (load h o w) as [[ld| |] w1]; try reflexivity.
  rewrite bind_unfold.
  destruct (ratio h "AFL_INST_RATIO" _ w1) as [[ir| |] w2]; try reflexivity.
  rewrite bind_unfold. unfold selective at 1. now rewrite He, Hs.
Qed.

Lemma malformed_selective_is_fatal h str w :
  getenv h "AFLGO_SELECTIVE" = Some str -> sscanf_u str = None ->
  selective h w = (Fatal "Bad value of AFLGO_SELECTIVE (must be 0 or 1)", w).
Proof. intros He Hs. unfold selective. now rewrite He, Hs. Qed.

(** C9: the code at [AFLGO_SELECTIVE=2], a value that is neither 0 nor 1.
    The claim, and the message of the pass itself ("must be 0 or 1"), have it
    end the pass; the value is taken, the pass runs to its end, and the
    flag counts as set (the block [zed.c:7], unknown to the distance file,
    is left out). *)
Theorem selective_range_is_not_checked :
  selective (Demo.host (Demo.env_selective "2")) world0 = (Done 2, world0) /\
  runOnModule (Demo.host (Demo.env_selective "2")) Demo.distance_only
    (Demo.only Demo.bb_zed) world0 =
    (Done tt,
     {| rng := 0;
        trace := [InitTypes; NewGlobal "__afl_area_ptr"; NewGlobal "__afl_prev_loc";
                  ClearLocalVariables];
        inst_blocks := 0 |}).
Proof. split; vm_compute; reflexivity. Qed.

End Environment.

(** *** What the two modes do to the world *)

Module Traces.
Import Cxx IR Pass Spec StringFacts MonadFacts Effects Loading Monitoring.

(** A step that has no effect. *)
Ltac silent :=
  apply quiet_emits_only;
  first [apply quiet_ret | apply quiet_FATAL | apply quiet_load
        | apply quiet_ratio | apply quiet_selective].

(** A step that emits effects outside the monitoring loop. *)
Ltac emits_plain H :=
  apply emits_only_emits; repeat constructor; now apply H.

(** Preprocessing writes files and names blocks; it injects nothing. *)
Section Phase1Effects.
Context (h : Host) (o : Options).

Lemma phase1_inst_plain i st : Forall plain (phase1_inst o i st).2.
Proof.
  unfold phase1_inst.
  destruct (getDebugLoc i (p_filename st, p_line st)) as [f l].
  destruct (_ || _); simpl; [constructor|].
  destruct (empty (p_bb_name st)); destruct (negb (p_is_target st));
    try destruct (match_targets _ _ _ _);
    destruct (inst_kind i) as [[name|]| |]; simpl; try constructor;
    destruct (negb (isBlacklisted name)); repeat constructor.
Qed.

Lemma phase1_insts_plain insts st : Forall plain (phase1_insts o insts st).2.
Proof.
  revert st. induction insts as [|i rest IH]; intros st; simpl; [constructor|].
  pose proof (phase1_inst_plain i st) as H1.
  destruct (phase1_inst o i st) as [st1 out1].
  specialize (IH st1). destruct (phase1_insts o rest st1) as [st2 out2].
  simpl in *. apply Forall_app; auto.
Qed.

Lemma phase1_block_plain F BB st : Forall plain (phase1_block h o F BB st).2.
Proof.
  unfold phase1_block. destruct st as [[is_target has_BBs] ts].
  match goal with |- context [phase1_insts o ?a ?b] =>
    pose proof (phase1_insts_plain a b) as H1;
    destruct (phase1_insts o a b) as [st' out] end.
  simpl in *. destruct (negb (empty (p_bb_name st'))); simpl; auto.
  apply Forall_app; split; auto; destruct (AFLGO_TRACING h); repeat constructor.
Qed.

Lemma phase1_blocks_plain F bbs st : Forall plain (phase1_blocks h o F bbs st).2.
Proof.
  revert st. induction bbs as [|BB rest IH]; intros st; simpl; [constructor|].
  pose proof (phase1_block_plain F BB st) as H1.
  destruct (phase1_block h o F BB st) as [st1 out1].
  specialize (IH st1). destruct (phase1_blocks h o F rest st1) as [st2 out2].
  simpl in *. apply Forall_app; auto.
Qed.

Lemma phase1_function_plain F ts : Forall plain (phase1_function h o F ts).2.
Proof.
  unfold phase1_function. destruct (isBlacklisted (f_name F)); [constructor|].
  pose proof (phase1_blocks_plain F (f_blocks F) (false, false, ts)) as H1.
  destruct (phase1_blocks h o F (f_blocks F) (false, false, ts))
    as [[[is_target has_BBs] ts'] out].
  simpl in *. destruct has_BBs; simpl; auto.
  repeat (apply Forall_app; split); auto; repeat case_match; repeat constructor.
Qed.

Lemma phase1_functions_plain fs ts : Forall plain (phase1_functions h o fs ts).
Proof.
  revert ts. induction fs as [|F rest IH]; intros ts; simpl; [constructor|].
  pose proof (phase1_function_plain F ts) as H1.
  destruct (phase1_function h o F ts) as [ts' out].
  simpl in *. apply Forall_app; auto.
Qed.

Lemma preprocessing_emits (P : Effect -> Prop) ts Mod :
  (forall e, monitoring_effect e = false -> P e) ->
  emits_only P (preprocessing h o ts Mod).
Proof.
  intros HP. unfold preprocessing.
  apply emits_only_bind; [emits_plain HP|].
  intros _ _ _ _. destruct (create_directory_fails h _).
  - silent.
  - apply emits_only_emits. eapply Forall_impl; [apply phase1_functions_plain|].
    exact HP.
Qed.

End Phase1Effects.

Section Phase2Effects.
Context (h : Host) (ld : Loaded) (inst_ratio is_selective dinst_ratio : Z).
Context (P : Effect -> Prop).
Hypothesis plain_ok : forall e, monitoring_effect e = false -> P e.
Hypothesis monitor_ok :
  is_ltl_fuzzing ld = true -> forall F BB, Forall P (monitor_block h ld F BB).

Lemma find_distance_emits bb_name :
  emits_only P (find_distance h ld is_selective dinst_ratio bb_name).
Proof.
  unfold find_distance. repeat case_match; try silent.
  apply emits_only_bind; [apply emits_only_AFL_R|].
  intros; case_match; silent.
Qed.

Lemma phase2_block_emits F BB :
  emits_only P (phase2_block h ld inst_ratio is_selective dinst_ratio F BB).
Proof.
  unfold phase2_block. apply emits_only_bind.
  { destruct (is_aflgo ld); [apply find_distance_emits|silent]. }
  intros [distance|] _ _ _; [|silent].
  apply emits_only_bind.
  { destruct (is_ltl_fuzzing ld) eqn:E; [apply emits_only_emits; auto | silent]. }
  intros _ _ _ _. apply emits_only_bind; [apply emits_only_AFL_R|].
  intros r _ _ _. destruct (inst_ratio <=? r); [silent|].
  apply emits_only_bind; [apply emits_only_AFL_R|].
  intros cur_loc _ _ _.
  apply emits_only_bind; [emits_plain plain_ok|].
  intros _ _ _ _. apply emits_only_bind; [|intros; apply emits_only_incr].
  destruct (0 <=? distance); [emits_plain plain_ok | silent].
Qed.

Lemma instrumentation_emits Mod :
  emits_only P (instrumentation h ld inst_ratio is_selective dinst_ratio Mod).
Proof.
  unfold instrumentation.
  apply emits_only_bind; [emits_plain plain_ok|].
  intros _ _ _ _. apply emits_only_for_each. intros F. unfold phase2_function.
  apply emits_only_bind; [emits_plain plain_ok|].
  intros _ _ _ _. apply emits_only_for_each. apply phase2_block_emits.
Qed.

End Phase2Effects.

Lemma runOnModule_emits h o Mod (P : Effect -> Prop) :
  (forall e, monitoring_effect e = false -> P e) ->
  (forall ld w w', load h o w = (Done ld, w') -> is_ltl_fuzzing ld = true ->
     forall F BB, Forall P (monitor_block h ld F BB)) ->
  emits_only P (runOnModule h o Mod).
Proof.
  intros HP HM. unfold runOnModule.
  apply emits_only_bind; [silent|].
  intros ld w w' Hld.
  apply emits_only_bind; [silent|].
  intros inst_ratio _ _ _.
  apply emits_only_bind; [silent|].
  intros is_selective _ _ _.
  apply emits_only_bind; [silent|].
  intros dinst_ratio _ _ _.
  destruct (is_aflgo_preprocessing ld).
  - now apply preprocessing_emits.
  - apply instrumentation_emits; eauto.
Qed.

End Traces.

(** *** Event files that are not read *)

Module Events.
Import Cxx IR Pass Spec StringFacts MonadFacts Effects Loading Monitoring Traces.

Section Skipped.
Context (h : Host) (o : Options).

Lemma load_without_events k w :
  unusable h o k -> load h (without_events k o) w = load h o w.
Proof.
  intros [H|H]; destruct k; unfold load, open_revents, open_pevents; simpl in *;
    rewrite ?H; simpl; try reflexivity.
  all: destruct (negb (empty (REventsFile o))), (negb (empty (PEventsFile o)));
    reflexivity.
Qed.

Lemma preprocessing_without_events k ts Mod :
  preprocessing h (without_events k o) ts Mod = preprocessing h o ts Mod.
Proof. destruct k; reflexivity. Qed.

Lemma runOnModule_without_events k Mod w :
  unusable h o k ->
  runOnModule h (without_events k o) Mod w = runOnModule h o Mod w.
Proof.
  intros H. unfold runOnModule. rewrite !bind_unfold.
  rewrite (load_without_events k w H).
  destruct (load h o w) as [[ld| |] w']; reflexivity.
Qed.

Lemma mode_stays_off k w ld w' :
  unusable h o k -> load h o w = (Done ld, w') -> mode_enabled k ld = false.
Proof.
  intros Hu Hld. destruct (load_flags h o w ld w' Hld) as (_ & Hr & Hp).
  destruct (mode_enabled k ld) eqn:E; [exfalso|reflexivity].
  unfold unusable in Hu. destruct k; simpl in *.
  - destruct (Hr E) as [Hd [x Hx]]. destruct Hu; congruence.
  - destruct (Hp E) as [Hd [x Hx]]. destruct Hu; congruence.
Qed.

Lemma mode_effect_monitoring k e :
  monitoring_effect e = false -> mode_effect k e = false.
Proof. destruct k, e; simpl; congruence. Qed.

(** C10: an event file whose path is given while no distance file is
    given, or that does not open, is passed over in silence: the run is the
    run without that path (so nothing is raised on its account), the mode of
    the file stays off, and no code of that mode is injected; when this
    holds of both event files, no monitoring code at all is injected. *)
Theorem unusable_event_file_is_skipped k Mod w :
  unusable h o k ->
  runOnModule h o Mod w = runOnModule h (without_events k o) Mod w /\
  (forall ld w', load h o w = (Done ld, w') -> mode_enabled k ld = false) /\
  exists es,
    trace (runOnModule h o Mod w).2 = (trace w ++ es)%list /\
    Forall (fun e => mode_effect k e = false) es /\
    ((forall k', unusable h o k') -> Forall (fun e => monitoring_effect e = false) es).
Proof.
  intros Hu. split; [symmetry; now apply runOnModule_without_events|].
  split; [intros ld w'; now apply mode_stays_off|].
  assert (Hk : emits_only (fun e => mode_effect k e = false) (runOnModule h o Mod)).
  { apply runOnModule_emits; [apply mode_effect_monitoring|].
    intros ld w0 w' Hld Hltl F BB.
    pose proof (mode_stays_off k w0 ld w' Hu Hld) as Hoff.
    destruct (load_flags h o w0 ld w' Hld) as (Hf & _ & _).
    destruct k; simpl in *.
    - now apply monitor_insts_protocol.
    - apply monitor_insts_automaton.
      rewrite Hltl, Hoff, orb_false_r in Hf. auto. }
  destruct (Hk w) as (es & E & Hes). exists es. split; [exact E|]. split; [exact Hes|].
  intros Hall.
  assert (Hm : emits_only (fun e => monitoring_effect e = false) (runOnModule h o Mod)).
  { apply runOnModule_emits; [auto|].
    intros ld w0 w' Hld Hltl F BB. exfalso.
    pose proof (mode_stays_off Automaton w0 ld w' (Hall _) Hld) as H1.
    pose proof (mode_stays_off Protocol w0 ld w' (Hall _) Hld) as H2.
    destruct (load_flags h o w0 ld w' Hld) as (Hf & _ & _).
    simpl in *. rewrite H1, H2, Hltl in Hf. discriminate. }
  destruct (Hm w) as (es' & E' & Hes').
  rewrite E in E'. apply app_inv_head in E'. now subst es'.
Qed.

End Skipped.

Lemma unusable_event_file_is_skipped_witness :
  let h := Demo.host Demo.no_env in
  let o := Demo.opts "" "" "" "revents.txt" "pevents.txt" in
  unusable h o Automaton /\
  runOnModule h o Demo.module world0 =
    runOnModule h (without_events Automaton o) Demo.module world0 /\
  exists es,
    trace (runOnModule h o Demo.module world0).2 = es /\
    Forall (fun e => monitoring_effect e = false) es.
Proof.
  intros h o.
  assert (Hall : forall k, unusable h o k) by (intros k; left; reflexivity).
  destruct (unusable_event_file_is_skipped h o Automaton Demo.module world0 (Hall _))
    as (E & _ & es & Ht & _ & Hm).
  split; [apply Hall|]. split; [exact E|].
  exists es. split; [exact Ht | exact (Hm Hall)].
Defined.

End Events.

(** *** Paths and the blacklist *)

Module Paths.
Import Cxx IR Pass Spec Vocabulary StringFacts MonadFacts Identity Effects Loading Distances.

Lemma prefix_app p s : String.prefix p (p ++ s) = true.
Proof.
  induction p as [|c p IH]; simpl; [now destruct s|].
  destruct (ascii_dec c c); [exact IH|congruence].
Qed.

Lemma prefix_inv p s : String.prefix p s = true -> exists r, s = p ++ r.
Proof.
  revert s. induction p as [|c p IH]; intros s; simpl.
  - intros _. now exists s.
  - destruct s as [|d s]; simpl; [intros H; discriminate H|].
    destruct (ascii_dec c d) as [->|]; [|intros H; discriminate H].
    intros H. destruct (IH s H) as [r ->]. now exists r.
Qed.

(** X1: a function is blacklisted exactly when its name begins with one of
    the eight prefixes, whatever follows: [free_list] and [mallocate] are
    blacklisted as [free] and [malloc] are. *)
Theorem isBlacklisted_iff name :
  isBlacklisted name = true <->
  exists p r, In p Blacklist /\ name = p ++ r.
Proof.
  unfold isBlacklisted, startswith. rewrite existsb_exists. split.
  - intros (p & Hin & Hp). destruct (prefix_inv p name Hp) as [r ->]. eauto.
  - intros (p & r & Hin & ->). exists p. split; [exact Hin | apply prefix_app].
Qed.

Lemma find_last_of_app cs a c b :
  find_last_of cs b = None -> mem_char c cs = true ->
  find_last_of cs (a ++ String c b) = Some (String.length a).
Proof.
  intros Hb Hc. induction a as [|d a IH]; simpl.
  - now rewrite Hb, Hc.
  - now rewrite IH.
Qed.

Lemma strip_dir_app dir sep file :
  mem_char sep "/\" = true ->
  find_last_of "/\" file = None ->
  strip_dir (dir ++ String sep file) = file.
Proof.
  intros Hsep Hfile. unfold strip_dir, substr_from.
  rewrite (find_last_of_app _ dir sep file Hfile Hsep).
  apply str_drop_succ_app.
Qed.

(** X2: the directory is cut off at the last slash or backslash: a path
    [dir/file], with no separator in [file], is cut to [file], whatever
    [dir] holds. *)
Theorem strip_dir_path dir sep file :
  mem_char sep "/\" = true ->
  find_last_of "/\" file = None ->
  strip_dir (dir ++ String sep file) = file.
Proof. apply strip_dir_app. Qed.

Lemma strip_dir_path_witness :
  strip_dir ("C:\work/src" ++ String "\" "foo.c") = "foo.c".
Proof. apply strip_dir_path; reflexivity. Defined.

End Paths.

(** *** The read loops *)

Module Readers.
Import Cxx IR Pass Spec Vocabulary StringFacts MonadFacts Identity Effects Loading Distances Paths.

(** X3: an event line is split at its last colon: for an event without
    colon, the line [loc:evt] gives back [loc] and [evt], also when [loc]
    holds colons itself. *)
Theorem event_line_splits_at_last_colon loc evt :
  rfind ":" evt = None ->
  event_line (loc ++ ":" ++ evt) = (loc, evt).
Proof.
  intros Hevt. unfold event_line, rfind in *.
  change (loc ++ ":" ++ evt) with (loc ++ String ":" evt).
  rewrite (find_last_of_app _ loc ":" evt Hevt eq_refl).
  cbn [substr_to pos_succ]. unfold substr.
  rewrite str_take_app, str_drop_succ_app, str_take_all; [reflexivity|].
  rewrite str_length_app. simpl. lia.
Qed.

Lemma event_line_splits_at_last_colon_witness :
  event_line ("C:/src/foo.c:20" ++ ":" ++ "3") = ("C:/src/foo.c:20", "3").
Proof. apply event_line_splits_at_last_colon. reflexivity. Defined.

(** X4: an event line without colon is taken whole, twice: [npos + 1]
    wraps to 0, so the line is both the location and the event. *)
Theorem event_line_without_colon s :
  rfind ":" s = None -> event_line s = (s, s).
Proof.
  intros H. unfold event_line. rewrite H. cbn [substr_to pos_succ].
  unfold substr. simpl. now rewrite str_take_all.
Qed.

Lemma event_line_without_colon_witness : event_line "17" = ("17", "17").
Proof. apply event_line_without_colon. reflexivity. Defined.



Lemma getlines_aux_line cur line rest :
  find "010"%char line = None ->
  getlines_aux cur (line ++ String "010"%char rest) =
    String.rev_app cur line :: getlines_aux "" rest.
Proof.
  revert cur. induction line as [|c line IH]; intros cur; simpl.
  - intros _. reflexivity.
  - destruct (Ascii.eqb c "010") eqn:E; [discriminate|].
    destruct (find "010"%char line) eqn:F; [discriminate|]. intros _.
    now rewrite (IH (String c cur) eq_refl).
Qed.

(** X5: the read loop gets back the lines of a file: a text of lines
    without newline inside, each ended by a newline, is read as these
    lines, in order, empty lines included. *)
Theorem getlines_unlines lines :
  Forall (fun line => find "010"%char line = None) lines ->
  getlines (unlines lines) = lines.
Proof.
  unfold getlines. induction 1 as [|line rest Hline _ IH]; simpl; [reflexivity|].
  rewrite (getlines_aux_line "" line _ Hline). simpl. now rewrite IH.
Qed.

Lemma getlines_unlines_witness :
  getlines (unlines ["foo.c:10,0.25"; ""; "bar.c:3,1.5"]) =
    ["foo.c:10,0.25"; ""; "bar.c:3,1.5"].
Proof. apply getlines_unlines. repeat constructor. Defined.

End Readers.

(** *** Targets *)

Module Targets.
Import Cxx IR Pass Spec Vocabulary StringFacts MonadFacts Identity Effects Loading Distances Paths.

Lemma match_targets_spec ts filename line is_target :
  match_targets ts filename line is_target =
    (strip_dir <$> ts, is_target || existsb (target_hit filename line) ts).
Proof.
  revert is_target. induction ts as [|t rest IH]; intros b; simpl.
  - now rewrite orb_false_r.
  - rewrite IH. unfold target_hit at 2. now rewrite orb_assoc.
Qed.

(** X7: the loop over the targets cuts every entry to its last path
    component, sets [is_target] exactly when it was set or some entry
    matches, and looks at the last path component only: a list of targets
    and the list of their last components give the same result. *)
Theorem match_targets_is_path_insensitive ts filename line is_target :
  match_targets ts filename line is_target =
    (strip_dir <$> ts, is_target || existsb (target_hit filename line) ts) /\
  match_targets (strip_dir <$> ts) filename line is_target =
    match_targets ts filename line is_target.
Proof.
  split; [apply match_targets_spec|].
  rewrite !match_targets_spec. f_equal.
  - rewrite <- list_fmap_compose. apply list_fmap_ext. intros _ t _. simpl.
    apply strip_dir_idem.
  - f_equal. induction ts as [|t rest IH]; [reflexivity|].
    rewrite fmap_cons. cbn [existsb]. rewrite IH. f_equal.
    unfold target_hit. now rewrite strip_dir_idem.
Qed.

Lemma target_hit_last_component t filename n line :
  strip_dir t = filename ++ ":" ++ n -> find_last_of ":" n = None ->
  to_uint32 (atoi n) = Z.of_N line ->
  target_hit filename line t = true.
Proof.
  intros Ht Hn Hline. unfold target_hit. rewrite Ht.
  change (filename ++ ":" ++ n) with (filename ++ String ":" n).
  rewrite (find_last_of_app _ filename ":" n Hn eq_refl).
  cbn [substr_to pos_succ]. unfold substr_from.
  rewrite str_take_app, str_drop_succ_app, String.eqb_refl. simpl.
  now apply Z.eqb_eq.
Qed.

Lemma existsb_hit_strip filename line ts :
  existsb (target_hit filename line) (strip_dir <$> ts)
    = existsb (target_hit filename line) ts.
Proof.
  induction ts as [|t rest IH]; [reflexivity|].
  rewrite fmap_cons. cbn [existsb]. rewrite IH. f_equal.
  unfold target_hit. now rewrite strip_dir_idem.
Qed.

Section Marking.
Context (h : Host) (o : Options).

(** The instruction loop keeps the mark. *)
Lemma phase1_inst_marked i st fn l :
  marked (p_is_target st) (p_targets st) fn l ->
  marked (p_is_target (phase1_inst o i st).1)
         (p_targets (phase1_inst o i st).1) fn l.
Proof.
  intros Hm. unfold phase1_inst.
  destruct (getDebugLoc i (p_filename st, p_line st)) as [f' l'].
  destruct (_ || _); [exact Hm|].
  destruct (p_is_target st) eqn:Et; simpl.
  - destruct (empty (p_bb_name st)), (inst_kind i); simpl; now left.
  - destruct Hm as [Hm|Hm]; [discriminate|].
    destruct (empty (p_bb_name st)); rewrite match_targets_spec;
      destruct (inst_kind i); simpl; right; now rewrite existsb_hit_strip.
Qed.

Lemma phase1_inst_is_target i st :
  p_is_target st = true -> p_is_target (phase1_inst o i st).1 = true.
Proof.
  intros Ht. unfold phase1_inst.
  destruct (getDebugLoc i (p_filename st, p_line st)) as [f' l'].
  destruct (_ || _); [exact Ht|]. rewrite Ht. simpl.
  destruct (empty (p_bb_name st)), (inst_kind i); reflexivity.
Qed.

Lemma phase1_insts_marked insts st fn l :
  marked (p_is_target st) (p_targets st) fn l ->
  marked (p_is_target (phase1_insts o insts st).1)
         (p_targets (phase1_insts o insts st).1) fn l.
Proof.
  revert st. induction insts as [|i rest IH]; intros st Hm;
    cbn [phase1_insts]; [exact Hm|].
  pose proof (phase1_inst_marked i st fn l Hm) as H1.
  destruct (phase1_inst o i st) as [st1 out1]. simpl in H1.
  specialize (IH st1 H1). now destruct (phase1_insts o rest st1).
Qed.

Lemma phase1_insts_is_target insts st :
  p_is_target st = true -> p_is_target (phase1_insts o insts st).1 = true.
Proof.
  revert st. induction insts as [|i rest IH]; intros st Ht;
    cbn [phase1_insts]; [exact Ht|].
  pose proof (phase1_inst_is_target i st Ht) as H1.
  destruct (phase1_inst o i st) as [st1 out1]. simpl in H1.
  specialize (IH st1 H1). now destruct (phase1_insts o rest st1).
Qed.

(** An instruction with a file and a line sets the mark, and the block
    has a name from there on. *)
Lemma phase1_inst_hits i st f l :
  inst_dbg i = Some (f, l) -> strip_dir f <> "" -> l <> 0%N ->
  marked (p_is_target st) (p_targets st) (strip_dir f) l ->
  p_is_target (phase1_inst o i st).1 = true /\
  p_bb_name (phase1_inst o i st).1 <> "".
Proof.
  intros Ed Hf Hl Hm. unfold phase1_inst, getDebugLoc. rewrite Ed.
  apply empty_false in Hf. apply N.eqb_neq in Hl.
  rewrite Hf, Hl, Xlibs_test_is_dead. simpl.
  assert (Ht : (if negb (p_is_target st)
                then match_targets (p_targets st) (strip_dir f) l false
                else (p_targets st, true)).2 = true).
  { destruct (p_is_target st); [reflexivity|]. simpl.
    destruct Hm as [Hm|Hm]; [discriminate|].
    now rewrite match_targets_spec. }
  rewrite strip_dir_idem.
  destruct (empty (p_bb_name st)) eqn:En;
    destruct (if negb (p_is_target st) then _ else _) as [ts' t'];
    simpl in Ht; subst t'; destruct (inst_kind i); simpl;
    (split; [reflexivity|]);
    first [ apply empty_false, empty_name | now apply empty_false ].
Qed.

Lemma phase1_insts_hits insts st i f l :
  In i insts ->
  inst_dbg i = Some (f, l) -> strip_dir f <> "" -> l <> 0%N ->
  marked (p_is_target st) (p_targets st) (strip_dir f) l ->
  p_is_target (phase1_insts o insts st).1 = true /\
  p_bb_name (phase1_insts o insts st).1 <> "".
Proof.
  intros Hin Ed Hf Hl. revert st.
  induction insts as [|j rest IH]; intros st Hm; [destruct Hin|].
  cbn [phase1_insts]. destruct Hin as [<- | Hin].
  - destruct (phase1_inst_hits j st f l Ed Hf Hl Hm) as [Ht Hn].
    destruct (phase1_inst o j st) as [st1 out1]. simpl in Ht, Hn.
    pose proof (phase1_insts_is_target rest st1 Ht) as Ht'.
    pose proof (phase1_insts_named o rest st1 Hn) as Hn'.
    destruct (phase1_insts o rest st1) as [st2 out2]. simpl in *.
    split; [exact Ht' | congruence].
  - pose proof (phase1_inst_marked j st _ l Hm) as H1.
    destruct (phase1_inst o j st) as [st1 out1]. simpl in H1.
    specialize (IH Hin st1 H1). now destruct (phase1_insts o rest st1).
Qed.

(** The block loop keeps the mark and the flag [has_BBs]. *)
Lemma phase1_block_marked F BB t b ts fn l :
  marked t ts fn l ->
  marked (phase1_block h o F BB (t, b, ts)).1.1.1
         (phase1_block h o F BB (t, b, ts)).1.2 fn l /\
  (t = true -> (phase1_block h o F BB (t, b, ts)).1.1.1 = true) /\
  (b = true -> (phase1_block h o F BB (t, b, ts)).1.1.2 = true).
Proof.
  intros Hm. unfold phase1_block.
  match goal with |- context [phase1_insts o ?a ?s] =>
    pose proof (phase1_insts_marked a s fn l Hm) as H1;
    pose proof (phase1_insts_is_target a s) as H2;
    destruct (phase1_insts o a s) as [st' out] end.
  simpl in H1, H2. destruct (negb (empty (p_bb_name st'))); simpl; auto.
Qed.

Lemma phase1_block_hits F BB t b ts i f l :
  In i (bb_insts BB) ->
  inst_dbg i = Some (f, l) -> strip_dir f <> "" -> l <> 0%N ->
  marked t ts (strip_dir f) l ->
  (phase1_block h o F BB (t, b, ts)).1.1 = (true, true).
Proof.
  intros Hin Ed Hf Hl Hm. unfold phase1_block.
  match goal with |- context [phase1_insts o ?a ?s] =>
    destruct (phase1_insts_hits a s i f l Hin Ed Hf Hl Hm) as [Ht Hn];
    destruct (phase1_insts o a s) as [st' out] end.
  simpl in Ht, Hn. apply empty_false in Hn. rewrite Hn. simpl. now rewrite Ht.
Qed.

Lemma phase1_blocks_flags F bbs t b ts :
  t = true -> b = true ->
  (phase1_blocks h o F bbs (t, b, ts)).1.1 = (true, true).
Proof.
  revert t b ts. induction bbs as [|BB rest IH]; intros t b ts Ht Hb;
    cbn [phase1_blocks]; [now subst|].
  destruct (phase1_block_marked F BB t b ts "" 0%N (or_introl Ht))
    as (_ & H1 & H2).
  destruct (phase1_block h o F BB (t, b, ts)) as [[[t1 b1] ts1] out1].
  simpl in H1, H2. specialize (IH t1 b1 ts1 (H1 Ht) (H2 Hb)).
  now destruct (phase1_blocks h o F rest (t1, b1, ts1)).
Qed.

Lemma phase1_blocks_hits F bbs BB t b ts i f l :
  In BB bbs -> In i (bb_insts BB) ->
  inst_dbg i = Some (f, l) -> strip_dir f <> "" -> l <> 0%N ->
  marked t ts (strip_dir f) l ->
  (phase1_blocks h o F bbs (t, b, ts)).1.1 = (true, true).
Proof.
  intros HBB Hin Ed Hf Hl. revert t b ts.
  induction bbs as [|B rest IH]; intros t b ts Hm; [destruct HBB|].
  cbn [phase1_blocks]. destruct HBB as [<- | HBB].
  - pose proof (phase1_block_hits F B t b ts i f l Hin Ed Hf Hl Hm) as H1.
    destruct (phase1_block h o F B (t, b, ts)) as [[[t1 b1] ts1] out1].
    simpl in H1. injection H1 as -> ->.
    pose proof (phase1_blocks_flags F rest true true ts1 eq_refl eq_refl) as H2.
    now destruct (phase1_blocks h o F rest (true, true, ts1)).
  - destruct (phase1_block_marked F B t b ts _ l Hm) as (H1 & _ & _).
    destruct (phase1_block h o F B (t, b, ts)) as [[[t1 b1] ts1] out1].
    simpl in H1. specialize (IH HBB t1 b1 ts1 H1).
    now destruct (phase1_blocks h o F rest (t1, b1, ts1)).
Qed.

(** X8: preprocessing writes a function to [Ftargets.txt] whenever the
    function is not blacklisted, one of its instructions has a file and a
    line, and the target list holds an entry whose last path component is
    that file (cut to its last component), a colon and a number that
    [atoi] reads as that line: whatever the directory of the entry, the
    place of the entry in the list, and the place of the instruction in
    the function. *)
Theorem target_marks_function F BB i f l ts t n :
  isBlacklisted (f_name F) = false ->
  In BB (f_blocks F) -> In i (bb_insts BB) ->
  inst_dbg i = Some (f, l) -> strip_dir f <> "" -> l <> 0%N ->
  In t ts -> strip_dir t = strip_dir f ++ ":" ++ n ->
  find_last_of ":" n = None -> to_uint32 (atoi n) = Z.of_N l ->
  In (Append (ftargets o) (f_name F)) (phase1_function h o F ts).2.
Proof.
  intros Hbl HBB Hin Ed Hf Hl Ht Hs Hn Hline.
  assert (Hm : marked false ts (strip_dir f) l).
  { right. apply existsb_exists. exists t. split; [exact Ht|].
    now apply (target_hit_last_component t _ n). }
  unfold phase1_function. rewrite Hbl.
  pose proof (phase1_blocks_hits F (f_blocks F) BB false false ts i f l
                HBB Hin Ed Hf Hl Hm) as H1.
  destruct (phase1_blocks h o F (f_blocks F) (false, false, ts))
    as [[[t1 b1] ts1] out]. simpl in H1. injection H1 as -> ->. simpl.
  apply in_or_app. right. apply in_cons. apply in_or_app. right.
  now left.
Qed.

End Marking.

Lemma target_marks_function_witness :
  In (Append "out/Ftargets.txt" "work")
     (phase1_function (Demo.host Demo.no_env)
        (Demo.opts "BBtargets.txt" "" "out" "" "") Demo.work
        ["bar.c:9"; "/a/b/foo.c:11"]).2.
Proof.
  apply (target_marks_function (Demo.host Demo.no_env)
           (Demo.opts "BBtargets.txt" "" "out" "" "") Demo.work Demo.bb_foo
           (Demo.inst 2 "/src/foo.c" 11 KOther) "/src/foo.c" 11%N
           ["bar.c:9"; "/a/b/foo.c:11"] "/a/b/foo.c:11" "11");
    [reflexivity | left; reflexivity | right; right; left; reflexivity
    | reflexivity | vm_compute; discriminate | discriminate
    | right; left; reflexivity | reflexivity | reflexivity | reflexivity].
Defined.

(** A target at line 0 marks nothing: the instruction loop passes over an
    instruction at line 0 before it comes to the targets. *)
Lemma target_at_line_0_marks_nothing :
  target_hit "foo.c" 0 "/a/b/foo.c:0" = true /\
  phase1_function (Demo.host Demo.no_env)
    (Demo.opts "BBtargets.txt" "" "out" "" "")
    {| f_name := "work"; f_args := []; f_blocks := [Cases.bb_line0] |}
    ["/a/b/foo.c:0"] = (["/a/b/foo.c:0"], []).
Proof. split; vm_compute; reflexivity. Qed.

End Targets.

(** *** The ledger of call edges *)

Module Ledgers.
Import Cxx IR Pass Spec Vocabulary StringFacts MonadFacts Identity Effects Loading Distances.

Section CallEdges.
Context (h : Host) (o : Options).

Lemma phase1_inst_call_edge i st :
  Forall (call_edge o (p_bb_name (phase1_inst o i st).1)) (phase1_inst o i st).2 /\
  ((phase1_inst o i st).2 <> [] -> p_bb_name (phase1_inst o i st).1 <> "").
Proof.
  unfold phase1_inst.
  destruct (getDebugLoc i (p_filename st, p_line st)) as [f l].
  destruct (_ || _); simpl; [split; [constructor|congruence]|].
  destruct (empty (p_bb_name st)) eqn:En;
    (destruct (negb (p_is_target st)); [destruct (match_targets _ _ _ _)|]);
    (destruct (inst_kind i) as [[name|]| |]; simpl;
     [destruct (isBlacklisted name) eqn:Eb; simpl|..]);
    (split; [repeat constructor; try (eexists; split; [reflexivity|assumption])|]);
    intros _; first [apply empty_false, empty_name | now apply empty_false].
Qed.

Lemma phase1_insts_call_edges insts st :
  Forall (call_edge o (p_bb_name (phase1_insts o insts st).1))
    (phase1_insts o insts st).2 /\
  ((phase1_insts o insts st).2 <> [] ->
   p_bb_name (phase1_insts o insts st).1 <> "").
Proof.
  revert st. induction insts as [|i rest IH]; intros st; simpl;
    [split; [constructor|congruence]|].
  destruct (phase1_inst_call_edge i st) as [H1 N1].
  destruct (phase1_inst o i st) as [st1 out1]; simpl in *.
  destruct (IH st1) as [H2 N2].
  pose proof (phase1_insts_named o rest st1) as Hk.
  destruct (phase1_insts o rest st1) as [st2 out2]; simpl in *.
  destruct out1 as [|e out1].
  - simpl. split; auto.
  - assert (Hn : p_bb_name st1 <> "") by (apply N1; discriminate).
    rewrite (Hk Hn). split; [|intros _; exact Hn].
    apply Forall_app. split; [exact H1|]. now rewrite <- (Hk Hn).
Qed.

(** X9: every line the instruction loop of preprocessing sends to the ledger
    of call edges has the form [block,callee], where [block] is the name
    the block ends up with (never empty) and [callee] is not blacklisted;
    the loop emits nothing else. *)
Theorem call_edges_are_named insts st :
  let r := phase1_insts o insts st in
  Forall (call_edge o (p_bb_name r.1)) r.2 /\
  (r.2 <> [] -> p_bb_name r.1 <> "").
Proof. apply phase1_insts_call_edges. Qed.
End CallEdges.

End Ledgers.

(** *** Code without debug information *)

Module NoDebug.
Import Cxx IR Pass Spec Vocabulary StringFacts MonadFacts Identity Effects Loading Distances.

Section Unlocated.
Context (h : Host) (o : Options).

Lemma phase1_insts_not_located insts st :
  unnamed st -> first_located insts = None ->
  (phase1_insts o insts st).2 = [] /\
  p_bb_name (phase1_insts o insts st).1 = "" /\
  p_is_target (phase1_insts o insts st).1 = p_is_target st /\
  p_targets (phase1_insts o insts st).1 = p_targets st.
Proof.
  revert st. induction insts as [|i rest IH]; intros st [Hn Hst] Hloc; simpl in *.
  { repeat split; auto. }
  assert (Hrej :
    empty (strip_dir (getDebugLoc i (p_filename st, p_line st)).1)
    || ((getDebugLoc i (p_filename st, p_line st)).2 =? 0)%N = true /\
    first_located rest = None).
  { unfold getDebugLoc. destruct (inst_dbg i) as [[f l]|]; simpl.
    - destruct (empty f) eqn:Ef; simpl in Hloc.
      + apply empty_true in Ef. subst f. auto.
      + destruct (l =? 0)%N; simpl in Hloc; [|discriminate].
        split; [apply orb_true_r | exact Hloc].
    - split; [|exact Hloc].
      destruct Hst as [-> | ->]; [reflexivity | apply orb_true_r]. }
  destruct Hrej as [Hrej Hrest].
  pose proof (phase1_inst_rejected o i st Hrej) as E.
  destruct (phase1_inst o i st) as [st1 out1]. injection E as -> ->.
  match goal with |- context [phase1_insts o rest ?s] =>
    destruct (IH s) as (E1 & E2 & E3 & E4); [|exact Hrest|] end.
  { split; [exact Hn|]. simpl. apply orb_true_iff in Hrej as [Hr|Hr].
    - left. now apply empty_true.
    - right. now apply N.eqb_eq. }
  destruct (phase1_insts o rest _) as [st2 out2]; simpl in *.
  subst out2. repeat split; auto.
Qed.

Lemma phase1_blocks_not_located F bbs is_target has_BBs ts :
  Forall (fun BB => first_located (bb_insts BB) = None) bbs ->
  phase1_blocks h o F bbs (is_target, has_BBs, ts) = ((is_target, has_BBs, ts), []).
Proof.
  induction 1 as [|BB rest HBB _ IH]; simpl; [reflexivity|].
  unfold phase1_block.
  match goal with |- context [phase1_insts o ?a ?s] =>
    destruct (phase1_insts_not_located a s) as (E1 & E2 & E3 & E4);
      [split; simpl; auto | exact HBB |];
    destruct (phase1_insts o a s) as [st' out] end.
  simpl in *. subst out. rewrite E2, E3, E4. simpl. now rewrite IH.
Qed.

(** X10: a function none of whose instructions has a file and a line (it
    was built without debug information) leaves no mark in preprocessing:
    no block is named, nothing goes to a ledger, no graph is written, and
    the target list is not touched. *)
Theorem function_without_debug_info F ts :
  Forall (fun BB => first_located (bb_insts BB) = None) (f_blocks F) ->
  phase1_function h o F ts = (ts, []).
Proof.
  intros H. unfold phase1_function. destruct (isBlacklisted (f_name F)); [reflexivity|].
  now rewrite (phase1_blocks_not_located F _ false false ts H).
Qed.

(** X11: a block without a located instruction has no name in either mode. *)
Theorem block_without_debug_info BB :
  first_located (bb_insts BB) = None ->
  phase1_bb_name h o BB = "" /\ phase2_bb_name h (bb_insts BB) = "".
Proof.
  intros H. split.
  - unfold phase1_bb_name.
    match goal with |- context [phase1_insts o ?a ?s] =>
      destruct (phase1_insts_not_located a s) as (_ & E & _);
        [split; simpl; auto | exact H | exact E] end.
  - now apply phase2_not_located.
Qed.
End Unlocated.

Lemma function_without_debug_info_witness :
  phase1_function (Demo.host Demo.no_env) Demo.distance_only
    {| f_name := "work"; f_args := []; f_blocks := [Cases.bb_bare] |} ["/a/b/foo.c:10"]
  = (["/a/b/foo.c:10"], []).
Proof. apply function_without_debug_info. repeat constructor. Defined.

Lemma block_without_debug_info_witness :
  phase1_bb_name (Demo.host Demo.no_env) Demo.distance_only Cases.bb_bare = "" /\
  phase2_bb_name (Demo.host Demo.no_env) (bb_insts Cases.bb_bare) = "".
Proof. apply block_without_debug_info. reflexivity. Defined.

End NoDebug.

(** *** The two modes apart *)

Module Modes.
Import Cxx IR Pass Spec Vocabulary StringFacts MonadFacts Identity Effects Loading Distances.
Import Ledgers.

Section OnlyEmits.
Context (P : Effect -> Prop).

Lemma quiet_only_emits {A} (m : M A) : quiet m -> only_emits P m.
Proof.
  intros H w. pose proof (H w) as E.
  split; [now rewrite E|]. split; [now rewrite E|].
  exists []. rewrite app_nil_r, E. split; [reflexivity | constructor].
Qed.

Lemma only_emits_bind {A B} (m : M A) (k : A -> M B) :
  only_emits P m ->
  (forall a w w', m w = (Done a, w') -> only_emits P (k a)) ->
  only_emits P (m ≫= k).
Proof.
  intros Hm Hk w. rewrite bind_unfold.
  destruct (Hm w) as (R1 & B1 & es1 & E1 & F1).
  destruct (m w) as [[a| |] w'] eqn:E; simpl in *; eauto.
  destruct (Hk a w w' E w') as (R2 & B2 & es2 & E2 & F2).
  split; [congruence|]. split; [congruence|].
  exists (es1 ++ es2)%list. rewrite E2, E1, app_assoc. split; auto.
  apply Forall_app; auto.
Qed.

Lemma only_emits_emits es : Forall P es -> only_emits P (emits es).
Proof. intros H w. simpl. eauto. Qed.

End OnlyEmits.

Section EmitsSuch.
Context (Q : list Effect -> Prop).
Hypothesis Q_nil : Q [].
Hypothesis Q_app : forall es1 es2, Q es1 -> Q es2 -> Q (es1 ++ es2)%list.

Lemma quiet_emits_such {A} (m : M A) : quiet m -> emits_such Q m.
Proof.
  intros H w. pose proof (H w) as E.
  split; [now rewrite E|]. split; [now rewrite E|].
  exists []. rewrite app_nil_r, E. split; [reflexivity | exact Q_nil].
Qed.

Lemma emits_such_bind {A B} (m : M A) (k : A -> M B) :
  emits_such Q m ->
  (forall a w w', m w = (Done a, w') -> emits_such Q (k a)) ->
  emits_such Q (m ≫= k).
Proof.
  intros Hm Hk w. rewrite bind_unfold.
  destruct (Hm w) as (R1 & B1 & es1 & E1 & F1).
  destruct (m w) as [[a| |] w'] eqn:E; simpl in *; eauto.
  destruct (Hk a w w' E w') as (R2 & B2 & es2 & E2 & F2).
  split; [congruence|]. split; [congruence|].
  exists (es1 ++ es2)%list. rewrite E2, E1, app_assoc. split; auto.
Qed.

Lemma emits_such_emits es : Q es -> emits_such Q (emits es).
Proof. intros H w. simpl. eauto. Qed.

End EmitsSuch.

Lemma count_append p (es1 es2 : list Effect) :
  count p (es1 ++ es2) = (count p es1 + count p es2)%nat.
Proof. unfold count. now rewrite List.filter_app, length_app. Qed.

Section Phase1Kinds.
Context (h : Host) (o : Options).

Let ext (e : Effect) : Prop := extraction_effect e = true.

Lemma extraction_nil : extraction h [].
Proof. split; [constructor|]. now destruct (AFLGO_TRACING h). Qed.

Lemma extraction_app es1 es2 :
  extraction h es1 -> extraction h es2 -> extraction h (es1 ++ es2).
Proof.
  intros [F1 C1] [F2 C2]. split; [apply Forall_app; auto|].
  rewrite !count_append, C1, C2. now destruct (AFLGO_TRACING h).
Qed.

(** The lines of the ledger of call edges. *)
Lemma call_edges_extraction name es :
  Forall (call_edge o name) es -> extraction h es.
Proof.
  induction 1 as [|e es (callee & -> & _) _ IH]; [apply extraction_nil|].
  change (extraction h ([Append (bbcalls o) (name ++ "," ++ callee)] ++ es)%list).
  apply extraction_app; [|exact IH].
  split; [repeat constructor|]. now destruct (AFLGO_TRACING h).
Qed.

Lemma phase1_block_extraction F BB st :
  extraction h (phase1_block h o F BB st).2.
Proof.
  unfold phase1_block. destruct st as [[is_target has_BBs] ts].
  match goal with |- context [phase1_insts o ?a ?b] =>
    pose proof (phase1_insts_call_edges o a b) as [H1 _];
    destruct (phase1_insts o a b) as [st' out] end.
  simpl in H1. apply call_edges_extraction in H1.
  destruct (negb (empty (p_bb_name st'))); simpl; [|exact H1].
  apply extraction_app; [exact H1|].
  split; [destruct (AFLGO_TRACING h); repeat constructor|].
  now destruct (AFLGO_TRACING h).
Qed.

Lemma phase1_blocks_extraction F bbs st :
  extraction h (phase1_blocks h o F bbs st).2.
Proof.
  revert st. induction bbs as [|BB rest IH]; intros st;
    cbn [phase1_blocks]; [apply extraction_nil|].
  pose proof (phase1_block_extraction F BB st) as H1.
  destruct (phase1_block h o F BB st) as [st1 out1].
  specialize (IH st1). destruct (phase1_blocks h o F rest st1) as [st2 out2].
  simpl in *. now apply extraction_app.
Qed.

Lemma phase1_function_extraction F ts :
  extraction h (phase1_function h o F ts).2.
Proof.
  unfold phase1_function.
  destruct (isBlacklisted (f_name F)); [apply extraction_nil|].
  pose proof (phase1_blocks_extraction F (f_blocks F) (false, false, ts)) as H1.
  destruct (phase1_blocks h o F (f_blocks F) (false, false, ts))
    as [[[is_target has_BBs] ts'] out].
  simpl in *. destruct has_BBs; simpl; [|exact H1].
  apply extraction_app; [exact H1|].
  split; [|now destruct (open_fails h _), is_target, (AFLGO_TRACING h)].
  destruct (open_fails h _), is_target; repeat constructor.
Qed.

Lemma phase1_functions_extraction fs ts :
  extraction h (phase1_functions h o fs ts).
Proof.
  revert ts. induction fs as [|F rest IH]; intros ts;
    cbn [phase1_functions]; [apply extraction_nil|].
  pose proof (phase1_function_extraction F ts) as H1.
  destruct (phase1_function h o F ts) as [ts' out].
  simpl in *. now apply extraction_app.
Qed.

Lemma phase1_functions_ext fs ts : Forall ext (phase1_functions h o fs ts).
Proof. apply phase1_functions_extraction. Qed.

Lemma preprocessing_extraction ts Mod :
  emits_such (extraction h) (preprocessing h o ts Mod).
Proof.
  unfold preprocessing.
  apply emits_such_bind; [apply extraction_app| |].
  - apply emits_such_emits. split; [repeat constructor|].
    now destruct (AFLGO_TRACING h).
  - intros _ _ _ _. destruct (create_directory_fails h _).
    + apply quiet_emits_such; [apply extraction_nil | apply quiet_FATAL].
    + apply emits_such_emits, phase1_functions_extraction.
Qed.

Lemma load_targets_mode w ld w' :
  load h o w = (Done ld, w') -> TargetsFile o <> "" ->
  is_aflgo_preprocessing ld = true.
Proof.
  intros H Ht. apply empty_false in Ht. revert H. unfold load. rewrite Ht. simpl.
  destruct (negb (empty (DistanceFile o))); [discriminate|].
  destruct (empty (OutDirectory o)); [discriminate|].
  now intros [= <- <-].
Qed.

(** X12: with a targets file the pass only extracts: whatever the module
    and the environment, it draws no random number and counts no
    instrumented block; all it does is open, create and write files, name
    blocks and, in a build with [AFLGO_TRACING] only, put in the call of
    [llvm_profiling_call], once for each block it names.  A build without
    [AFLGO_TRACING] injects no code at all. *)
Theorem preprocessing_injects_only_tracing Mod w :
  TargetsFile o <> "" ->
  rng (runOnModule h o Mod w).2 = rng w /\
  inst_blocks (runOnModule h o Mod w).2 = inst_blocks w /\
  exists es,
    trace (runOnModule h o Mod w).2 = (trace w ++ es)%list /\
    Forall (fun e => extraction_effect e = true) es /\
    count is_profiling es
      = (if AFLGO_TRACING h then count is_naming es else 0%nat) /\
    (AFLGO_TRACING h = false ->
     Forall (fun e => preprocessing_effect e = true) es).
Proof.
  intros Ht.
  assert (H : emits_such (extraction h) (runOnModule h o Mod)).
  { unfold runOnModule.
    apply emits_such_bind;
      [apply extraction_app | apply quiet_emits_such, quiet_load; apply extraction_nil|].
    intros ld w0 w' Hld.
    apply emits_such_bind;
      [apply extraction_app | apply quiet_emits_such, quiet_ratio; apply extraction_nil|].
    intros inst_ratio _ _ _.
    apply emits_such_bind;
      [apply extraction_app
      | apply quiet_emits_such, quiet_selective; apply extraction_nil|].
    intros is_selective _ _ _.
    apply emits_such_bind;
      [apply extraction_app | apply quiet_emits_such, quiet_ratio; apply extraction_nil|].
    intros dinst_ratio _ _ _.
    rewrite (load_targets_mode w0 ld w' Hld Ht). apply preprocessing_extraction. }
  destruct (H w) as (Hr & Hb & es & Et & Hf & Hc).
  split; [exact Hr|]. split; [exact Hb|].
  exists es. split; [exact Et|]. split; [exact Hf|]. split; [exact Hc|].
  intros Hoff. rewrite Hoff in Hc. clear Et.
  induction Hf as [|e es He Hes IH]; [constructor|].
  change (e :: es) with ([e] ++ es)%list in Hc. rewrite count_append in Hc.
  constructor.
  - unfold extraction_effect in He. destruct (preprocessing_effect e); [reflexivity|].
    simpl in He. unfold count in Hc. simpl in Hc. rewrite He in Hc. discriminate Hc.
  - apply IH. lia.
Qed.
End Phase1Kinds.

Lemma preprocessing_injects_only_tracing_witness :
  exists es,
    trace (runOnModule Cases.host_tracing
             (Demo.opts "BBtargets.txt" "" "out" "" "") Demo.module world0).2
      = (trace world0 ++ es)%list /\
    Forall (fun e => extraction_effect e = true) es /\
    count is_profiling es = count is_naming es.
Proof.
  destruct (preprocessing_injects_only_tracing Cases.host_tracing
              (Demo.opts "BBtargets.txt" "" "out" "" "") Demo.module world0)
    as (_ & _ & es & Et & Hf & Hc & _); [discriminate|].
  exists es. split; [exact Et|]. split; [exact Hf | exact Hc].
Defined.

(** A build with [AFLGO_TRACING] at work: the profiling call comes after
    the line of the block in the ledger of names, and carries the name of
    the block without the colon. *)
Lemma tracing_build_injects_the_call :
  runOnModule Cases.host_tracing (Demo.opts "BBtargets.txt" "" "out" "" "")
    (Demo.only Demo.bb_foo) world0 =
    (Done tt,
     {| rng := 0;
        trace := [OpenAppend "out/BBnames.txt"; OpenAppend "out/BBcalls.txt";
                  OpenAppend "out/Fnames.txt"; OpenAppend "out/Ftargets.txt";
                  CreateDirectory "out/dot-files";
                  Append "out/BBcalls.txt" "foo.c:10,g";
                  SetName "work" 0 "foo.c:10:";
                  Append "out/BBnames.txt" "foo.c:10:";
                  ProfilingCall "work" 0 "foo.c:10";
                  OpenGraph "out/dot-files/cfg.work.dot";
                  WriteGraph "out/dot-files/cfg.work.dot" "work";
                  Append "out/Ftargets.txt" "work"; Append "out/Fnames.txt" "work"];
        inst_blocks := 0 |}).
Proof. vm_compute. reflexivity. Qed.

(** X13: when the directory for the graphs cannot be made, the pass ends
    in [FATAL] after it has opened the four ledgers, and before it has
    looked at the module: the ledgers are left as opened, nothing is
    written to them. *)
Theorem dot_files_failure_is_fatal h o ts Mod w :
  create_directory_fails h (dotfiles o) = true ->
  preprocessing h o ts Mod w =
    (Fatal ("Could not create directory " ++ dotfiles o ++ "."),
     {| rng := rng w;
        trace := (trace w ++ [OpenAppend (bbnames o); OpenAppend (bbcalls o);
                              OpenAppend (fnames o); OpenAppend (ftargets o);
                              CreateDirectory (dotfiles o)])%list;
        inst_blocks := inst_blocks w |}).
Proof.
  intros H. unfold preprocessing. rewrite bind_unfold. simpl. now rewrite H.
Qed.

Lemma dot_files_failure_is_fatal_witness :
  (preprocessing Cases.host_no_mkdir (Demo.opts "BBtargets.txt" "" "out" "" "")
     ["/a/b/foo.c:10"] Demo.module world0).1
  = Fatal "Could not create directory out/dot-files.".
Proof.
  rewrite (dot_files_failure_is_fatal Cases.host_no_mkdir
             (Demo.opts "BBtargets.txt" "" "out" "" "") _ Demo.module world0 eq_refl).
  reflexivity.
Defined.

End Modes.

(** *** Errors *)

Module Errors.
Import Cxx IR Pass Spec Vocabulary StringFacts MonadFacts Identity Effects Loading Distances.

Section Fatal.
Context (h : Host) (o : Options).

(** X14: a targets file without an output directory ends the pass in
    [FATAL] before anything is done. *)
Theorem missing_outdir_is_fatal Mod w :
  TargetsFile o <> "" -> DistanceFile o = "" -> OutDirectory o = "" ->
  runOnModule h o Mod w =
    (Fatal "Provide output directory '-outdir <directory>'", w).
Proof.
  intros Ht Hd Ho. apply empty_false in Ht.
  unfold runOnModule. apply bind_Fatal. unfold load. now rewrite Ht, Hd, Ho.
Qed.

(** X15: a distance file that does not open ends the pass in [FATAL]
    before anything is done, whatever the event files. *)
Theorem missing_distance_file_is_fatal Mod w :
  TargetsFile o = "" -> DistanceFile o <> "" -> file h (DistanceFile o) = None ->
  runOnModule h o Mod w =
    (Fatal ("Unable to find " ++ DistanceFile o ++ "."), w).
Proof.
  intros Ht Hd Hf. apply empty_false in Hd.
  unfold runOnModule. apply bind_Fatal. unfold load. now rewrite Ht, Hd, Hf.
Qed.

Lemma load_revents_bad lines m w :
  Exists (fun line => stoi (event_line line).2 = None) lines ->
  load_revents lines m w = (Thrown "std::stoi", w).
Proof.
  intros H. revert m.
  induction lines as [|line rest IH]; intros m; [inversion H|].
  cbn [load_revents].
  destruct (event_line line) as [loc evt] eqn:El.
  destruct (stoi evt) as [v|] eqn:Es; [|reflexivity].
  apply IH. inversion H as [? ? Hbad|]; subst; [|assumption].
  rewrite El in Hbad. simpl in Hbad. congruence.
Qed.

(** X16: an automaton event file with a line whose event is not a number
    in the range of [int] ends the pass by the exception of [std::stoi],
    not by [FATAL], before anything is done. *)
Theorem malformed_automaton_event_throws Mod w cf ef :
  TargetsFile o = "" -> DistanceFile o <> "" ->
  file h (DistanceFile o) = Some cf ->
  REventsFile o <> "" -> file h (REventsFile o) = Some ef ->
  Exists (fun line => stoi (event_line line).2 = None) (getlines ef) ->
  runOnModule h o Mod w = (Thrown "std::stoi", w).
Proof.
  intros Ht Hd Hcf Hr Hef Hbad. apply empty_false in Hd, Hr.
  unfold runOnModule. rewrite bind_unfold.
  unfold load. rewrite Ht, Hd, Hcf. simpl. rewrite bind_unfold.
  unfold open_revents. rewrite Hr, Hef. simpl. rewrite bind_unfold.
  now rewrite (load_revents_bad _ _ _ Hbad).
Qed.

Lemma sscanf_u_range str v : sscanf_u str = Some v -> 0 <= v < 2 ^ 32.
Proof.
  unfold sscanf_u. destruct (sign (skip_ws str)) as [neg s1].
  destruct (digits 0 0 s1) as [[x cnt] r]. destruct cnt; [discriminate|].
  intros [= <-]. unfold to_uint32. apply Z.mod_pos_bound. reflexivity.
Qed.

(** X17: a ratio that passes the checks lies between 1 and 100, and is 100
    when the variable is not set. *)
Theorem accepted_ratio_is_in_range var msg w v w' :
  ratio h var msg w = (Done v, w') ->
  1 <= v <= 100 /\ w' = w /\ (getenv h var = None -> v = 100).
Proof.
  unfold ratio. destruct (getenv h var) as [str|].
  - destruct (sscanf_u str) as [x|] eqn:Ex; [|discriminate].
    destruct (x =? 0) eqn:E0; [discriminate|].
    destruct (100 <? x) eqn:E1; [discriminate|]. simpl.
    intros [= -> ->]. apply Z.eqb_neq in E0. apply Z.ltb_ge in E1.
    pose proof (sscanf_u_range str v Ex).
    split; [lia|]. split; [reflexivity | discriminate].
  - intros [= <- <-]. split; [lia|]. split; reflexivity.
Qed.
End Fatal.

Lemma missing_outdir_is_fatal_witness :
  runOnModule (Demo.host Demo.no_env) (Demo.opts "BBtargets.txt" "" "" "" "")
    Demo.module world0 =
    (Fatal "Provide output directory '-outdir <directory>'", world0).
Proof. apply missing_outdir_is_fatal; [discriminate | reflexivity..]. Defined.

Lemma missing_distance_file_is_fatal_witness :
  runOnModule (Demo.host Demo.no_env) (Demo.opts "" "nowhere.txt" "" "revents.txt" "")
    Demo.module world0 =
    (Fatal "Unable to find nowhere.txt.", world0).
Proof.
  apply (missing_distance_file_is_fatal (Demo.host Demo.no_env)
           (Demo.opts "" "nowhere.txt" "" "revents.txt" ""));
    [reflexivity | discriminate | reflexivity].
Defined.

Lemma malformed_automaton_event_throws_witness :
  runOnModule Cases.host_bad_events (Demo.opts "" "distance.cfg.txt" "" "bad.txt" "")
    Demo.module world0 = (Thrown "std::stoi", world0).
Proof.
  apply (malformed_automaton_event_throws Cases.host_bad_events
           (Demo.opts "" "distance.cfg.txt" "" "bad.txt" "") Demo.module world0
           Demo.distance_txt Cases.bad_revents_txt);
    [reflexivity | discriminate | reflexivity | discriminate | reflexivity |].
  change (getlines Cases.bad_revents_txt) with ["foo.c:10:3"; "bar.c:3:open"].
  right. left. reflexivity.
Defined.

Lemma accepted_ratio_is_in_range_witness :
  1 <= 50 <= 100 /\ world0 = world0 /\
  (getenv (Demo.host (Cases.env_one "AFL_INST_RATIO" "50")) "AFL_INST_RATIO" = None ->
   50 = 100).
Proof.
  apply (accepted_ratio_is_in_range (Demo.host (Cases.env_one "AFL_INST_RATIO" "50"))
           "AFL_INST_RATIO" "Bad value" world0 50 world0).
  reflexivity.
Defined.

End Errors.

(** *** The counter of instrumented blocks *)

Module Coverage.
Import Cxx IR Pass Spec Vocabulary StringFacts MonadFacts Identity Effects Loading Distances Modes.

Lemma count_app p es1 es2 : count p (es1 ++ es2) = (count p es1 + count p es2)%nat.
Proof. unfold count. now rewrite List.filter_app, List.length_app. Qed.

Lemma count_none p es : Forall (fun e => p e = false) es -> count p es = 0%nat.
Proof.
  unfold count. induction 1 as [|e es He _ IH]; simpl; [reflexivity|].
  now rewrite He.
Qed.

Section Monitor.
Context (h : Host) (ld : Loaded).

Lemma monitor_insts_monitoring F insts tr :
  Forall (fun e => monitoring_effect e = true) (monitor_insts h ld F insts tr).
Proof.
  revert tr. induction insts as [|i rest IH]; intros tr; simpl; [constructor|].
  assert (H1 : Forall (fun e => monitoring_effect e = true) (monitor_inst h ld F i tr).2).
  { unfold monitor_inst. destruct (getDebugLoc i ("", uninit h)) as [f l].
    destruct (empty f || (l =? 0)%N); simpl; [constructor|].
    destruct (is_RERS_fuzzing ld), (String.eqb (f_name F) "main"), (inst_kind i), tr;
      simpl; repeat case_match; simplify_eq/=; repeat constructor. }
  destruct (monitor_inst h ld F i tr) as [tr' out]. apply Forall_app; auto.
Qed.

Lemma monitor_block_counts F BB :
  count is_coverage (monitor_block h ld F BB) = 0%nat /\
  count is_distance (monitor_block h ld F BB) = 0%nat.
Proof.
  split; apply count_none;
    (eapply Forall_impl; [apply monitor_insts_monitoring|]);
    intros []; simpl; congruence.
Qed.
End Monitor.

Section Counted.

Lemma counted_quiet {A} (m : M A) : quiet m -> counted m.
Proof.
  intros H w. exists []. rewrite (H w), app_nil_r. unfold count. simpl.
  split; [reflexivity|]. split; lia.
Qed.

Lemma counted_bind {A B} (m : M A) (k : A -> M B) :
  counted m -> (forall a, counted (k a)) -> counted (m ≫= k).
Proof.
  intros Hm Hk w. rewrite bind_unfold. destruct (Hm w) as (es1 & E1 & B1 & D1).
  destruct (m w) as [[a| |] w'] eqn:E; simpl in *; eauto.
  destruct (Hk a w') as (es2 & E2 & B2 & D2).
  exists (es1 ++ es2)%list. rewrite E2, E1, app_assoc, B2, B1, !count_app.
  split; [reflexivity|]. split; lia.
Qed.

Lemma counted_emits es :
  count is_coverage es = 0%nat -> count is_distance es = 0%nat ->
  counted (emits es).
Proof. intros Hc Hd w. exists es. simpl. rewrite Hc, Hd. split; [reflexivity|]. split; lia. Qed.

Lemma counted_for_each {A} (l : list A) (body : A -> M unit) :
  (forall x, counted (body x)) -> counted (for_each l body).
Proof.
  intros H. induction l as [|x l IH]; simpl.
  - apply counted_quiet. intros w. reflexivity.
  - apply counted_bind; auto.
Qed.

Context (h : Host) (ld : Loaded) (inst_ratio is_selective dinst_ratio : Z).

Lemma phase2_block_counted F BB :
  counted (phase2_block h ld inst_ratio is_selective dinst_ratio F BB).
Proof.
  intros w. destruct (monitor_block_counts h ld F BB) as [Hc Hd].
  unfold phase2_block, find_distance, emit, emits, AFL_R, incr_inst_blocks,
    mbind, mret, M_bind, M_ret.
  destruct (is_aflgo ld), (is_ltl_fuzzing ld); simpl;
  repeat (case_match; simplify_eq/=);
  try (exists []; rewrite app_nil_r; unfold count; simpl;
       split; [reflexivity|]; split; lia);
  rewrite <- ?app_assoc; eexists; (split; [reflexivity|]);
  rewrite ?count_app, ?Hc, ?Hd; unfold count; simpl; split; lia.
Qed.

Lemma instrumentation_counted Mod :
  counted (instrumentation h ld inst_ratio is_selective dinst_ratio Mod).
Proof.
  unfold instrumentation.
  apply counted_bind; [now apply counted_emits|]. intros _.
  apply counted_for_each. intros F. unfold phase2_function.
  apply counted_bind; [now apply counted_emits|]. intros _.
  apply counted_for_each. apply phase2_block_counted.
Qed.

End Counted.

Lemma phase1_counts h o fs ts :
  count is_coverage (phase1_functions h o fs ts) = 0%nat /\
  count is_distance (phase1_functions h o fs ts) = 0%nat.
Proof.
  split; apply count_none;
    (eapply Forall_impl; [apply phase1_functions_ext|]);
    intros []; cbv; congruence.
Qed.

(** X18: in every run, the counter of instrumented blocks goes up by one
    for each injection of coverage code and by nothing else, and distance
    code is injected at most as often as coverage code. *)
Theorem inst_blocks_counts_coverage h o Mod w :
  exists es,
    trace (runOnModule h o Mod w).2 = (trace w ++ es)%list /\
    inst_blocks (runOnModule h o Mod w).2
      = inst_blocks w + Z.of_nat (count is_coverage es) /\
    (count is_distance es <= count is_coverage es)%nat.
Proof.
  revert w. change (counted (runOnModule h o Mod)). unfold runOnModule.
  apply counted_bind; [apply counted_quiet, quiet_load|]. intros ld.
  apply counted_bind; [apply counted_quiet, quiet_ratio|]. intros inst_ratio.
  apply counted_bind; [apply counted_quiet, quiet_selective|]. intros is_selective.
  apply counted_bind; [apply counted_quiet, quiet_ratio|]. intros dinst_ratio.
  destruct (is_aflgo_preprocessing ld).
  - unfold preprocessing. apply counted_bind; [now apply counted_emits|]. intros _.
    destruct (create_directory_fails h _).
    + apply counted_quiet, quiet_FATAL.
    + destruct (phase1_counts h o Mod (targets ld)). now apply counted_emits.
  - apply instrumentation_counted.
Qed.

End Coverage.

(** *** Blocks in distance mode *)

Module Blocks.
Import Cxx IR Pass Spec Vocabulary StringFacts MonadFacts Identity Effects Loading Distances Modes Coverage.

Section Adds.

Lemma adds_bind {A} (m : M A) (k : A -> M unit) n :
  quiet m -> (forall w, exists a, (m w).1 = Done a) ->
  (forall a, adds n (k a)) -> adds n (m ≫= k).
Proof.
  intros Hq Hd Hk w. rewrite bind_unfold.
  destruct (Hd w) as [a Ha]. pose proof (Hq w) as Hw.
  destruct (m w) as [r w']. simpl in *. subst. apply Hk.
Qed.

Lemma adds_seq (m k : M unit) n1 n2 :
  adds n1 m -> adds n2 k -> adds (n1 + n2) (m;; k).
Proof.
  intros Hm Hk w. unfold mbind. rewrite (bind_unfold m (fun _ => k)).
  destruct (Hm w) as [D1 B1]. destruct (m w) as [r w']. simpl in *. subst r.
  destruct (Hk w') as [D2 B2]. split; [exact D2|]. lia.
Qed.

Lemma adds_emits es : adds 0 (emits es).
Proof. intros w. simpl. split; [reflexivity|lia]. Qed.

Lemma adds_for_each {A} (l : list A) (body : A -> M unit) (n : A -> Z) :
  (forall x, adds (n x) (body x)) ->
  adds (foldr (fun x acc => n x + acc) 0 l) (for_each l body).
Proof.
  intros H. induction l as [|x l IH]; simpl.
  - intros w. split; [reflexivity|]. simpl. lia.
  - apply adds_seq; auto.
Qed.

Context (h : Host) (ld : Loaded) (dinst_ratio : Z).

Lemma rem_100 r : (100 <=? Z.rem r 100) = false.
Proof.
  apply Z.leb_gt. pose proof (Z.rem_bound_abs r 100 ltac:(lia)). lia.
Qed.

Lemma phase2_block_full_ratio F BB :
  adds 1 (phase2_block h ld 100 0 dinst_ratio F BB).
Proof.
  intros w.
  unfold phase2_block, find_distance, emit, emits, AFL_R, incr_inst_blocks,
    mbind, mret, M_bind, M_ret.
  destruct (is_aflgo ld), (is_ltl_fuzzing ld); simpl;
  repeat (case_match; simplify_eq/=); rewrite ?rem_100 in *; try discriminate;
  split; try reflexivity; simpl; lia.
Qed.

(** X19: with an instrumentation ratio of 100 and the selective flag off,
    every block of every function gets coverage code: the run comes to its
    end and counts as many instrumented blocks as the module has blocks,
    whatever the distances, the events and the random numbers. *)
Theorem full_ratio_covers_every_block Mod w :
  (instrumentation h ld 100 0 dinst_ratio Mod w).1 = Done tt /\
  inst_blocks (instrumentation h ld 100 0 dinst_ratio Mod w).2
    = inst_blocks w + Z.of_nat (length (blocks_of Mod)).
Proof.
  assert (H : adds (Z.of_nat (length (blocks_of Mod)))
                (instrumentation h ld 100 0 dinst_ratio Mod)); [|apply H].
  unfold instrumentation.
  replace (Z.of_nat (length (blocks_of Mod)))
    with (0 + foldr (fun F acc => Z.of_nat (length (f_blocks F)) + acc) 0 Mod).
  2:{ unfold blocks_of. induction Mod as [|F rest IH]; [reflexivity|].
      rewrite fmap_cons. cbn [concat foldr]. rewrite length_app, Nat2Z.inj_add.
      lia. }
  apply adds_seq; [apply adds_emits|].
  apply adds_for_each. intros F. unfold phase2_function.
  replace (Z.of_nat (length (f_blocks F)))
    with (0 + foldr (fun (_ : BasicBlock) acc => 1 + acc) 0 (f_blocks F)).
  2:{ induction (f_blocks F) as [|BB rest IH]; [reflexivity|].
      cbn [foldr length]. lia. }
  apply adds_seq; [apply adds_emits|].
  apply (adds_for_each _ _ (fun _ => 1)). apply phase2_block_full_ratio.
Qed.

End Adds.

Section Known.
Context (h : Host) (ld : Loaded) (inst_ratio is_selective dinst_ratio : Z).

(** X20: distance code goes only into a block whose name is among the known
    blocks and has an entry in [bb_to_dis] that is not negative, and it
    carries the name of that block: a [Distance] in the trace after a block
    was there before, or is of this kind. *)
Theorem distance_code_needs_known_distance F BB w fn bb name :
  In (Distance fn bb name)
     (trace (phase2_block h ld inst_ratio is_selective dinst_ratio F BB w).2) ->
  In (Distance fn bb name) (trace w) \/
  (is_aflgo ld = true /\
   fn = f_name F /\ bb = bb_id BB /\ name = phase2_bb_name h (bb_insts BB) /\
   name ∈ basic_blocks ld /\
   exists d, bb_to_dis ld !! name = Some d /\ 0 <= d).
Proof.
  pose proof (monitor_insts_monitoring h ld F (bb_insts BB) false) as Hmon.
  fold (monitor_block h ld F BB) in Hmon.
  assert (Hno : ~ In (Distance fn bb name) (monitor_block h ld F BB)).
  { intros Hin. rewrite Forall_forall in Hmon.
    apply list_elem_of_In, Hmon in Hin. discriminate. }
  unfold phase2_block, find_distance, emit, emits, AFL_R, incr_inst_blocks,
    mbind, mret, M_bind, M_ret.
  destruct (is_aflgo ld), (is_ltl_fuzzing ld); simpl;
  repeat (case_match; simplify_eq/=);
  rewrite ?in_app_iff; simpl; intros Hin;
  repeat match goal with
         | H : _ \/ _ |- _ => destruct H
         | H : False |- _ => destruct H
         | H : In _ (monitor_block _ _ _ _) |- _ => destruct (Hno H)
         | H : Coverage _ _ _ = Distance _ _ _ |- _ => discriminate H
         | H : Distance _ _ _ = Distance _ _ _ |- _ => injection H as <- <- <-
         end;
  try (left; assumption);
  try match goal with H : (0 <=? -1) = true |- _ => discriminate H end;
  right;
  match goal with
  | Hb : negb (bool_decide (_ ∈ _)) = false, Hd : (0 <=? scan_distance _ _ _) = true |- _ =>
      apply negb_false_iff, bool_decide_eq_true in Hb;
      rewrite scan_distance_lookup in Hd; apply Z.leb_le in Hd;
      repeat split; auto;
      destruct (bb_to_dis ld !! _) as [d|]; simpl in Hd; [eauto | lia]
  end.
Qed.

End Known.

Lemma distance_code_needs_known_distance_witness :
  In (Distance "work" 0 "foo.c:10") (trace world0) \/
  (is_aflgo (Demo.ld_of Demo.distance_only) = true /\
   "work" = f_name Demo.work /\ 0%nat = bb_id Demo.bb_foo /\
   "foo.c:10" = phase2_bb_name (Demo.host Demo.no_env) (bb_insts Demo.bb_foo) /\
   "foo.c:10" ∈ basic_blocks (Demo.ld_of Demo.distance_only) /\
   exists d, bb_to_dis (Demo.ld_of Demo.distance_only) !! "foo.c:10" = Some d /\ 0 <= d).
Proof.
  apply (distance_code_needs_known_distance (Demo.host Demo.no_env)
           (Demo.ld_of Demo.distance_only) 100 0 100 Demo.work Demo.bb_foo world0).
  vm_compute. auto.
Defined.

Section FirstHook.
Context (h : Host) (ld : Loaded).


End FirstHook.


Section NoFiles.
Context (h : Host) (o : Options).

Let inj (e : Effect) : Prop := preprocessing_effect e = false.

Lemma monitor_block_inj ld F BB : Forall inj (monitor_block h ld F BB).
Proof.
  eapply Forall_impl; [apply monitor_insts_monitoring|].
  intros []; unfold inj; simpl; congruence.
Qed.

Lemma phase2_block_inj ld ir sel dr F BB :
  emits_only inj (phase2_block h ld ir sel dr F BB).
Proof.
  unfold phase2_block. apply emits_only_bind.
  { unfold find_distance. repeat case_match;
      try (apply quiet_emits_only, quiet_ret).
    apply emits_only_bind; [apply emits_only_AFL_R|].
    intros; case_match; apply quiet_emits_only, quiet_ret. }
  intros [distance|] _ _ _; [|apply quiet_emits_only, quiet_ret].
  apply emits_only_bind.
  { destruct (is_ltl_fuzzing ld);
      [apply emits_only_emits, monitor_block_inj | apply quiet_emits_only, quiet_ret]. }
  intros _ _ _ _. apply emits_only_bind; [apply emits_only_AFL_R|].
  intros r _ _ _. destruct (ir <=? r); [apply quiet_emits_only, quiet_ret|].
  apply emits_only_bind; [apply emits_only_AFL_R|].
  intros cur_loc _ _ _.
  apply emits_only_bind; [apply emits_only_emits; repeat constructor|].
  intros _ _ _ _. apply emits_only_bind; [|intros; apply emits_only_incr].
  destruct (0 <=? distance);
    [apply emits_only_emits; repeat constructor | apply quiet_emits_only, quiet_ret].
Qed.

Lemma load_no_targets w ld w' :
  load h o w = (Done ld, w') -> TargetsFile o = "" ->
  is_aflgo_preprocessing ld = false.
Proof.
  intros H Ht. revert H. unfold load. rewrite Ht. simpl.
  destruct (negb (empty (DistanceFile o))).
  - destruct (file h (DistanceFile o)); [|discriminate].
    rewrite bind_unfold. destruct (open_revents h o w) as [[r| |] w1]; try discriminate.
    now intros [= <- <-].
  - now intros [= <- <-].
Qed.

(** X22: without a targets file the pass writes nothing to the file system
    and names no block: whatever the distance file, the event files and the
    environment, it opens no file for writing, makes no directory and
    writes no ledger or graph. *)
Theorem instrumentation_writes_no_file Mod w :
  TargetsFile o = "" ->
  exists es,
    trace (runOnModule h o Mod w).2 = (trace w ++ es)%list /\
    Forall (fun e => preprocessing_effect e = false) es.
Proof.
  intros Ht. revert w. change (emits_only inj (runOnModule h o Mod)).
  unfold runOnModule.
  apply emits_only_bind; [apply quiet_emits_only, quiet_load|].
  intros ld w w' Hld.
  apply emits_only_bind; [apply quiet_emits_only, quiet_ratio|].
  intros inst_ratio _ _ _.
  apply emits_only_bind; [apply quiet_emits_only, quiet_selective|].
  intros is_selective _ _ _.
  apply emits_only_bind; [apply quiet_emits_only, quiet_ratio|].
  intros dinst_ratio _ _ _.
  rewrite (load_no_targets w ld w' Hld Ht). unfold instrumentation.
  apply emits_only_bind; [apply emits_only_emits; repeat constructor|].
  intros _ _ _ _. apply emits_only_for_each. intros F. unfold phase2_function.
  apply emits_only_bind; [apply emits_only_emits; repeat constructor|].
  intros _ _ _ _. apply emits_only_for_each. apply phase2_block_inj.
Qed.
End NoFiles.

Lemma instrumentation_writes_no_file_witness :
  exists es,
    trace (runOnModule (Demo.host Demo.no_env) Demo.both_events Demo.module world0).2
      = es /\
    Forall (fun e => preprocessing_effect e = false) es.
Proof.
  apply (instrumentation_writes_no_file (Demo.host Demo.no_env) Demo.both_events
           Demo.module world0).
  reflexivity.
Defined.

End Blocks.

(** *** The maps *)

Module Maps.
Import Cxx IR Pass Spec Vocabulary StringFacts MonadFacts Identity Effects Loading Distances.

Lemma load_pevents_step lines (m : gmap string string) loc :
  foldl (fun m pline => let (loc, evt) := event_line pline in emplace m loc evt)
        m lines !! loc =
    match m !! loc with
    | Some e => Some e
    | None => first_event lines loc
    end.
Proof.
  revert m. induction lines as [|line rest IH]; intros m.
  - simpl. now destruct (m !! loc).
  - change (first_event (line :: rest) loc)
      with (if String.eqb (event_line line).1 loc
            then Some (event_line line).2 else first_event rest loc).
    cbn [foldl]. rewrite IH. clear IH.
    destruct (event_line line) as [l e]. simpl. unfold emplace.
    destruct (String.eqb_spec l loc) as [->|Hne].
    + destruct (m !! loc) eqn:Em; [now rewrite Em|]. now rewrite lookup_insert_eq.
    + destruct (m !! l) eqn:Em; [reflexivity|]. now rewrite lookup_insert_ne.
Qed.

(** X23: the protocol event map keeps, for every location, the event of
    the first line of the file with that location; a location on no line
    has no entry. *)
Theorem protocol_events_first_line_wins lines loc :
  load_pevents lines !! loc = first_event lines loc.
Proof. unfold load_pevents. now rewrite load_pevents_step, lookup_empty. Qed.

Lemma load_distances_names acc lines :
  (foldl step acc lines).2 = (acc.2 ++ ((fun l => (distance_line l).1) <$> lines))%list.
Proof.
  revert acc. induction lines as [|line rest IH]; intros acc.
  - simpl. now rewrite app_nil_r.
  - cbn [foldl]. rewrite IH, Distances.step_eq, fmap_cons. cbn [snd].
    now rewrite <- app_assoc.
Qed.

(** X24: after a distance file is read, the list of known blocks holds the
    block names of its lines, in order and with repeats, and a name is in
    the list exactly when [bb_to_dis] has an entry for it: the two lookups
    of distance mode cannot disagree. *)
Theorem known_blocks_are_the_keys h o w ld w' cf :
  load h o w = (Done ld, w') -> is_aflgo ld = true ->
  file h (DistanceFile o) = Some cf ->
  basic_blocks ld = (fun l => (distance_line l).1) <$> getlines cf /\
  forall name, name ∈ basic_blocks ld <-> is_Some (bb_to_dis ld !! name).
Proof.
  intros Hld Ha Hf.
  destruct (load_distance_file h o w ld w' cf Hld Ha Hf) as [Hm Hb].
  rewrite Hb, Hm. split.
  - unfold load_distances. change (fun acc line => _) with step.
    now rewrite load_distances_names.
  - intros name. destruct (load_distances_lookup (getlines cf) name) as [H1 H2].
    now rewrite H1.
Qed.

Lemma known_blocks_are_the_keys_witness :
  basic_blocks (Demo.ld_of Demo.distance_only) = ["foo.c:10"; "foo.c:10"; "bar.c:3"].
Proof.
  destruct (known_blocks_are_the_keys (Demo.host Demo.no_env) Demo.distance_only
              world0 (Demo.ld_of Demo.distance_only) world0 Demo.distance_txt)
    as [E _]; [vm_compute; reflexivity | reflexivity | reflexivity |].
  rewrite E. vm_compute. reflexivity.
Defined.

End Maps.

(** *** Block tags and samples *)

Module Tags.
Import Cxx IR Pass Spec Vocabulary StringFacts MonadFacts Identity Effects Loading Distances Modes Coverage Blocks.

Section InMap.
Context (h : Host) (o : Options).
Hypothesis random_nonneg : forall k, 0 <= random h k.
Hypothesis map_size_pos : 0 < MAP_SIZE h.

Let in_map (e : Effect) : Prop :=
  match e with
  | Coverage _ _ cur_loc => 0 <= cur_loc < MAP_SIZE h
  | _ => True
  end.

Lemma phase2_block_tags ld ir sel dr F BB :
  emits_only in_map (phase2_block h ld ir sel dr F BB).
Proof.
  unfold phase2_block. apply emits_only_bind.
  { unfold find_distance. repeat case_match;
      try (apply quiet_emits_only, quiet_ret).
    apply emits_only_bind; [apply emits_only_AFL_R|].
    intros; case_match; apply quiet_emits_only, quiet_ret. }
  intros [distance|] _ _ _; [|apply quiet_emits_only, quiet_ret].
  apply emits_only_bind.
  { destruct (is_ltl_fuzzing ld); [|apply quiet_emits_only, quiet_ret].
    apply emits_only_emits.
    eapply Forall_impl; [apply monitor_insts_monitoring|].
    intros []; simpl; auto; discriminate. }
  intros _ _ _ _. apply emits_only_bind; [apply emits_only_AFL_R|].
  intros r _ _ _. destruct (ir <=? r); [apply quiet_emits_only, quiet_ret|].
  apply emits_only_bind; [apply emits_only_AFL_R|].
  intros cur_loc w w' Hcur. injection Hcur as <- _.
  apply emits_only_bind.
  { apply emits_only_emits. constructor; [|constructor]. simpl.
    apply Z.rem_bound_pos; [apply random_nonneg | exact map_size_pos]. }
  intros _ _ _ _. apply emits_only_bind; [|intros; apply emits_only_incr].
  destruct (0 <=? distance);
    [apply emits_only_emits; repeat constructor; exact I
    |apply quiet_emits_only, quiet_ret].
Qed.

Lemma runOnModule_tags Mod : emits_only in_map (runOnModule h o Mod).
Proof.
  unfold runOnModule.
  apply emits_only_bind; [apply quiet_emits_only, quiet_load|].
  intros ld w w' Hld.
  apply emits_only_bind; [apply quiet_emits_only, quiet_ratio|].
  intros inst_ratio _ _ _.
  apply emits_only_bind; [apply quiet_emits_only, quiet_selective|].
  intros is_selective _ _ _.
  apply emits_only_bind; [apply quiet_emits_only, quiet_ratio|].
  intros dinst_ratio _ _ _.
  destruct (is_aflgo_preprocessing ld).
  - unfold preprocessing.
    apply emits_only_bind; [apply emits_only_emits; repeat constructor; exact I|].
    intros _ _ _ _. destruct (create_directory_fails h _).
    + apply quiet_emits_only, quiet_FATAL.
    + apply emits_only_emits.
      eapply Forall_impl; [apply phase1_functions_ext|].
      intros []; cbv; auto; discriminate.
  - unfold instrumentation.
    apply emits_only_bind; [apply emits_only_emits; repeat constructor; exact I|].
    intros _ _ _ _. apply emits_only_for_each. intros F. unfold phase2_function.
    apply emits_only_bind; [apply emits_only_emits; repeat constructor; exact I|].
    intros _ _ _ _. apply emits_only_for_each. apply phase2_block_tags.
Qed.
End InMap.

(** X25: when [random()] gives no negative number and [MAP_SIZE] is
    positive, every block tag the pass puts into coverage code lies in the
    bitmap: it is at least 0 and below [MAP_SIZE]. *)
Theorem block_tags_are_in_the_map h o Mod w :
  (forall k, 0 <= random h k) -> 0 < MAP_SIZE h ->
  exists es,
    trace (runOnModule h o Mod w).2 = (trace w ++ es)%list /\
    forall fn bb cur_loc, In (Coverage fn bb cur_loc) es ->
                          0 <= cur_loc < MAP_SIZE h.
Proof.
  intros Hr Hm. destruct (runOnModule_tags h o Hr Hm Mod w) as (es & E & Hes).
  exists es. split; [exact E|]. intros fn bb c Hin.
  rewrite Forall_forall in Hes. apply list_elem_of_In in Hin.
  exact (Hes _ Hin).
Qed.

Lemma block_tags_are_in_the_map_witness :
  exists es,
    trace (runOnModule (Demo.host Demo.no_env) Demo.both_events Demo.module world0).2
      = es /\
    forall fn bb cur_loc, In (Coverage fn bb cur_loc) es -> 0 <= cur_loc < 65536.
Proof.
  apply (block_tags_are_in_the_map (Demo.host Demo.no_env) Demo.both_events
           Demo.module world0).
  - intros k. simpl. lia.
  - reflexivity.
Defined.

Section Sample.
Context (h : Host) (ld : Loaded) (inst_ratio is_selective dinst_ratio : Z).

(** X26: the distance ratio gates the distance code alone: when the block
    is known and its sample of [AFL_R(100)] is not below the distance
    ratio, the block gets no distance code, and it gets coverage code
    exactly when the next sample is below the instrumentation ratio: once
    when it is, not at all when it is not. *)
Theorem failed_distance_sample F BB w :
  is_aflgo ld = true ->
  phase2_bb_name h (bb_insts BB) ∈ basic_blocks ld ->
  phase2_bb_name h (bb_insts BB) <> "" ->
  dinst_ratio <= Z.rem (random h (rng w)) 100 ->
  exists es,
    trace (phase2_block h ld inst_ratio is_selective dinst_ratio F BB w).2
      = (trace w ++ es)%list /\
    count is_distance es = 0%nat /\
    count is_coverage es
      = (if Z.rem (random h (S (rng w))) 100 <? inst_ratio then 1%nat else 0%nat).
Proof.
  intros Ha Hin Hn Hs. destruct (monitor_block_counts h ld F BB) as [Hc Hd].
  rewrite Z.ltb_antisym.
  apply empty_false in Hn. apply Z.ltb_ge in Hs.
  unfold phase2_block, find_distance. rewrite Ha, Hn. simpl.
  rewrite bool_decide_eq_true_2 by exact Hin. simpl.
  unfold emit, emits, AFL_R, incr_inst_blocks, mbind, mret, M_bind, M_ret.
  simpl. rewrite Hs. simpl.
  destruct (is_ltl_fuzzing ld); simpl;
    destruct (inst_ratio <=? _) eqn:Er; simpl;
    rewrite <- ?app_assoc;
    first [ exists []; rewrite app_nil_r; split; [reflexivity|]
          | eexists; split; [reflexivity|] ];
    rewrite ?count_app, ?Hc, ?Hd; unfold count; simpl;
    split; reflexivity.
Qed.
End Sample.

Lemma failed_distance_sample_witness :
  exists es,
    trace (phase2_block (Demo.host Demo.no_env) (Demo.ld_of Demo.distance_only)
             20 0 10 Demo.work Demo.bb_foo Cases.world3).2
      = (trace Cases.world3 ++ es)%list /\
    count is_distance es = 0%nat /\
    count is_coverage es
      = (if Z.rem (random (Demo.host Demo.no_env) 4) 100 <? 20 then 1%nat else 0%nat).
Proof.
  apply (failed_distance_sample (Demo.host Demo.no_env)
           (Demo.ld_of Demo.distance_only) 20 0 10 Demo.work Demo.bb_foo Cases.world3).
  - reflexivity.
  - apply list_elem_of_In. vm_compute. auto.
  - discriminate.
  - vm_compute. discriminate.
Defined.

End Tags.

(** *** The end of the trace, and protocol mode *)

Module Exits.
Import Cxx IR Pass Spec Vocabulary StringFacts MonadFacts Identity Effects Loading Distances.

Section MonitorLoop.
Context (h : Host) (ld : Loaded).







End MonitorLoop.


End Exits.

(** *** The ledgers of functions *)

Module Functions.
Import Cxx IR Pass Spec Vocabulary StringFacts MonadFacts Identity Effects Loading Distances Ledgers.

Lemma str_app_inv_head (a b c : string) : a ++ b = a ++ c -> b = c.
Proof. induction a as [|d a IH]; simpl; [tauto|]. intros [= H]. auto. Qed.

Section FunctionLoop.
Context (h : Host) (o : Options).

Lemma phase1_inst_same_place i st st' :
  same_place st st' ->
  same_place (phase1_inst o i st).1 (phase1_inst o i st').1.
Proof.
  intros (Hn & Hf & Hl). unfold phase1_inst. rewrite Hn, Hf, Hl.
  destruct (getDebugLoc i (p_filename st', p_line st')) as [f l].
  destruct (_ || _); [repeat split|].
  destruct (empty (p_bb_name st'));
    destruct (negb (p_is_target st)); destruct (negb (p_is_target st'));
    repeat match goal with
           | |- context [match_targets ?a ?b ?c ?d] =>
               destruct (match_targets a b c d)
           end;
    destruct (inst_kind i); repeat split.
Qed.

Lemma phase1_insts_same_place insts st st' :
  same_place st st' ->
  same_place (phase1_insts o insts st).1 (phase1_insts o insts st').1.
Proof.
  revert st st'. induction insts as [|i rest IH]; intros st st' H; simpl; [exact H|].
  pose proof (phase1_inst_same_place i st st' H) as H1.
  destruct (phase1_inst o i st) as [s1 o1], (phase1_inst o i st') as [s1' o1'].
  simpl in H1. specialize (IH s1 s1' H1).
  destruct (phase1_insts o rest s1), (phase1_insts o rest s1'). exact IH.
Qed.

(** What a block of preprocessing does: call edges, the name of the block,
    its line in the ledger of names and the profiling call. *)
Let block_record (e : Effect) : Prop :=
  match e with
  | Append p _ => p = bbcalls o \/ p = bbnames o
  | SetName _ _ _ | ProfilingCall _ _ _ => True
  | _ => False
  end.

Lemma phase1_block_summary F BB t b ts :
  (phase1_block h o F BB (t, b, ts)).1.1.2
    = b || negb (empty (phase1_bb_name h o BB)) /\
  Forall block_record (phase1_block h o F BB (t, b, ts)).2.
Proof.
  unfold phase1_block, phase1_bb_name.
  pose proof (phase1_insts_same_place (bb_insts BB)
                {| p_bb_name := ""; p_filename := ""; p_line := uninit h;
                   p_is_target := t; p_targets := ts |}
                {| p_bb_name := ""; p_filename := ""; p_line := uninit h;
                   p_is_target := false; p_targets := [] |}
                (conj eq_refl (conj eq_refl eq_refl))) as (Hn & _).
  pose proof (phase1_insts_call_edges o (bb_insts BB)
                {| p_bb_name := ""; p_filename := ""; p_line := uninit h;
                   p_is_target := t; p_targets := ts |}) as [Hc _].
  rewrite <- Hn.
  destruct (phase1_insts o (bb_insts BB) _) as [st' out]. simpl in *.
  assert (Hout : Forall block_record out).
  { eapply Forall_impl; [exact Hc|]. intros e (name & -> & _). now left. }
  destruct (empty (p_bb_name st')); simpl.
  - split; [now rewrite orb_false_r | exact Hout].
  - split; [now rewrite orb_true_r|].
    apply Forall_app. split; [exact Hout|].
    constructor; [exact I|]. constructor; [now right|].
    destruct (AFLGO_TRACING h); repeat constructor.
Qed.

Lemma phase1_blocks_summary F bbs t b ts :
  (phase1_blocks h o F bbs (t, b, ts)).1.1.2
    = b || existsb (fun BB => negb (empty (phase1_bb_name h o BB))) bbs /\
  Forall block_record (phase1_blocks h o F bbs (t, b, ts)).2.
Proof.
  revert t b ts. induction bbs as [|BB rest IH]; intros t b ts;
    cbn [phase1_blocks existsb].
  - split; [apply eq_sym, orb_false_r | constructor].
  - destruct (phase1_block_summary F BB t b ts) as [Hb Ho].
    destruct (phase1_block h o F BB (t, b, ts)) as [[[t1 b1] ts1] out1].
    simpl in Hb, Ho. destruct (IH t1 b1 ts1) as [Hb2 Ho2].
    destruct (phase1_blocks h o F rest (t1, b1, ts1)) as [[[t2 b2] ts2] out2].
    simpl in *. subst b1. split.
    + now rewrite Hb2, orb_assoc.
    + apply Forall_app. now split.
Qed.

Lemma block_record_not_fnames out x :
  Forall block_record out ->
  ~ In (Append (fnames o) x) out /\ ~ In (Append (ftargets o) x) out.
Proof.
  intros H. rewrite Forall_forall in H.
  split; intros Hin; apply list_elem_of_In in Hin; apply H in Hin; simpl in Hin;
    destruct Hin as [E|E]; apply str_app_inv_head in E; discriminate E.
Qed.

(** X29: preprocessing lists a function in [Fnames.txt] exactly when the
    function is not blacklisted and one of its blocks gets a name, and a
    function listed in [Ftargets.txt] is listed in [Fnames.txt] too. *)
Theorem fnames_lists_named_functions F ts :
  let out := (phase1_function h o F ts).2 in
  (In (Append (fnames o) (f_name F)) out <->
   isBlacklisted (f_name F) = false /\
   Exists (fun BB => phase1_bb_name h o BB <> "") (f_blocks F)) /\
  (In (Append (ftargets o) (f_name F)) out ->
   In (Append (fnames o) (f_name F)) out).
Proof.
  cbv zeta. unfold phase1_function. destruct (isBlacklisted (f_name F)); simpl.
  { split; [split; [intros [] | intros [H _]; discriminate H] | intros []]. }
  destruct (phase1_blocks_summary F (f_blocks F) false false ts) as [Hb Ho].
  destruct (phase1_blocks h o F (f_blocks F) (false, false, ts))
    as [[[t b] ts'] out]. simpl in Hb, Ho.
  destruct (block_record_not_fnames out (f_name F) Ho) as [Hf Ht].
  assert (Hex : b = true <->
                Exists (fun BB => phase1_bb_name h o BB <> "") (f_blocks F)).
  { rewrite Hb. simpl. rewrite existsb_exists, Exists_exists. split.
    - intros (BB & Hin & Hn). exists BB. apply list_elem_of_In in Hin.
      split; [exact Hin|]. apply negb_true_iff, empty_false in Hn. exact Hn.
    - intros (BB & Hin & Hn). exists BB. apply list_elem_of_In in Hin.
      split; [exact Hin|]. apply negb_true_iff, empty_false. exact Hn. }
  destruct b; simpl.
  - split.
    + split; [intros _; split; [reflexivity | now apply Hex]|].
      intros _. apply in_or_app. right. apply in_cons. apply in_or_app. right.
      apply in_or_app. right. now left.
    + intros _. apply in_or_app. right. apply in_cons. apply in_or_app. right.
      apply in_or_app. right. now left.
  - split; [split|]; [tauto | | tauto].
    intros [_ H]. apply Hex in H. discriminate H.
Qed.

End FunctionLoop.

End Functions.
